(** * Gale-Shapley stable matching: a shallow embedding of [stable_matching.py]

    The Python module validates the preference tables ([all_preferences]),
    runs a sweep-based proposal loop over a mutable engagement dict and
    finally composes the list of couples out of that dict.  The embedding
    keeps the three stages, the insertion order of every dict (Python dicts
    iterate in insertion order, and both the sweep order and the orientation
    of the returned pairs depend on it) and the exceptions the code can
    raise. *)

From Stdlib Require Import String List Bool Arith Lia Permutation.
Import ListNotations.
Open Scope string_scope.
Open Scope list_scope.

(** ** Types declared by the module *)

Definition Person := string.
Definition People := list Person.
Definition Preferences := list Person.

(** A Python [dict] with [str] keys: the items in insertion order.  A
    well-formed dict has pairwise distinct keys ([distinct_keys] below). *)
Definition dict (V : Type) := list (string * V).

Definition Side := dict Preferences.
Definition Participants := dict Side.
Definition Pair := (Person * Person)%type.
Definition Matching := dict Person.
Definition Stable_Matching := list Pair.

(** ** Outcomes: a value, a raised exception, or fuel exhausted *)

Inductive exn := MissingPreferences | KeyError | IndexError.

Inductive outcome (A : Type) :=
| Ok (a : A)
| Raise (e : exn)
| OutOfFuel.
Arguments Ok {A} a.
Arguments Raise {A} e.
Arguments OutOfFuel {A}.

Definition bind {A B} (c : outcome A) (k : A -> outcome B) : outcome B :=
  match c with
  | Ok a => k a
  | Raise e => Raise e
  | OutOfFuel => OutOfFuel
  end.

Notation "x <- c ;; k" := (bind c (fun x => k))
  (at level 61, c at next level, right associativity).

(** ** Dict operations *)

Definition dict_keys {V} (d : dict V) : list string := map fst d.

(** [d.get(k)] *)
Fixpoint dict_get {V} (k : string) (d : dict V) : option V :=
  match d with
  | [] => None
  | (k', v) :: d' => if k =? k' then Some v else dict_get k d'
  end.

(** [k in d] *)
Definition dict_mem {V} (k : string) (d : dict V) : bool :=
  match dict_get k d with Some _ => true | None => false end.

(** [d[k]], raising [KeyError] on a missing key *)
Definition subscript {V} (d : dict V) (k : string) : outcome V :=
  match dict_get k d with Some v => Ok v | None => Raise KeyError end.

(** [d[k]] where [k] may be Python's [None] (never a key of a [str] dict) *)
Definition subscript_opt {V} (d : dict V) (k : option string) : outcome V :=
  match k with Some k' => subscript d k' | None => Raise KeyError end.

(** [d[k] = v]: an existing key keeps its position, a new key goes last *)
Fixpoint dict_set {V} (k : string) (v : V) (d : dict V) : dict V :=
  match d with
  | [] => [(k, v)]
  | (k', v') :: d' =>
      if k =? k' then (k, v) :: d' else (k', v') :: dict_set k v d'
  end.

Definition dict_remove {V} (k : string) (d : dict V) : dict V :=
  filter (fun kv => negb (fst kv =? k)) d.

(** [del d[k]] *)
Definition dict_del {V} (k : string) (d : dict V) : outcome (dict V) :=
  if dict_mem k d then Ok (dict_remove k d) else Raise KeyError.

(** [x in l] for a list of names *)
Definition member (x : Person) (l : list Person) : bool :=
  existsb (String.eqb x) l.

Fixpoint distinct (l : list string) : bool :=
  match l with
  | [] => true
  | x :: l' => negb (member x l') && distinct l'
  end.

Definition distinct_keys {V} (d : dict V) : bool := distinct (dict_keys d).

(** ** Validator *)

(** [other_side]: the first side label different from [current_side];
    Python falls off the loop and returns [None] when there is none. *)
Fixpoint other_side (current_side : string) (all_sides : list string)
  : option string :=
  match all_sides with
  | [] => None
  | s :: rest =>
      if negb (s =? current_side) then Some s
      else other_side current_side rest
  end.

(** The innermost loop of [all_preferences] for one preference list:
    no [o] of the other side with [o not in preferences]. *)
Definition ranks_all (other_side_participants : Side)
  (preferences : Preferences) : bool :=
  forallb (fun o => member o preferences) (dict_keys other_side_participants).

(** The outer loop of [all_preferences] over [participants.items()]. *)
Fixpoint all_preferences_items (participants : Participants)
  (sides : list string) (items : list (string * Side)) : outcome bool :=
  match items with
  | [] => Ok true
  | (side, people) :: rest =>
      other_side_participants <-
        subscript_opt participants (other_side side sides) ;;
      if forallb (fun np => ranks_all other_side_participants (snd np)) people
      then all_preferences_items participants sides rest
      else Ok false
  end.

Definition all_preferences (participants : Participants) : outcome bool :=
  all_preferences_items participants (dict_keys participants) participants.

(** ** Helpers of the proposal loop *)

Definition is_free (person : Person) (engaged : Matching) : bool :=
  negb (dict_mem person engaged).

Definition current_match (person : Person) (engaged : Matching)
  : option Person :=
  dict_get person engaged.

Definition free_participants (people : People) (engaged : Matching)
  : list Person :=
  filter (fun x => negb (dict_mem x engaged)) people.

(** [preferred] returns [True], [False], or falls off its loop ([None]). *)
Fixpoint preferred (a b : Person) (preferences : Preferences) : option bool :=
  match preferences with
  | [] => None
  | preference :: rest =>
      if preference =? a then Some true
      else if preference =? b then Some false
      else preferred a b rest
  end.

(** Python truthiness of [preferred]'s result: [None] counts as false. *)
Definition truthy (r : option bool) : bool :=
  match r with Some true => true | _ => false end.

(** ** Loop state

    [proposal_history] and [engagements] are the two dicts the loop
    mutates.  [calls] is ghost state: the arguments of every call of
    [preferred] made so far, oldest first.  The [print] of a first match
    does not influence the state and is left out. *)
Record state := mkState {
  proposal_history : dict (dict string);
  engagements : Matching;
  calls : list (Person * Person * Preferences)
}.

Section Engine.

Variable proposers receivers : Side.

Definition initial_state : state :=
  mkState (map (fun k => (k, [])) (dict_keys proposers)) [] [].

(** The scan [for target in preferences: if target not in
    proposal_history[proposer]: ...; break]: the first target not yet
    proposed to, if any. *)
Fixpoint next_target (history : dict (dict string)) (proposer : Person)
  (preferences : Preferences) : outcome (option Person) :=
  match preferences with
  | [] => Ok None
  | target :: rest =>
      proposed <- subscript history proposer ;;
      if negb (dict_mem target proposed) then Ok (Some target)
      else next_target history proposer rest
  end.

(** One iteration of [for proposer in free_proposers]. *)
Definition propose (proposer : Person) (st : state) : outcome state :=
  preferences <- subscript proposers proposer ;;
  found <- next_target (proposal_history st) proposer preferences ;;
  match found with
  | None => Ok st
  | Some target =>
      proposed <- subscript (proposal_history st) proposer ;;
      let history' :=
        dict_set proposer (dict_set target "" proposed) (proposal_history st) in
      if is_free target (engagements st) then
        Ok (mkState history'
              (dict_set target proposer
                 (dict_set proposer target (engagements st)))
              (calls st))
      else
        match current_match target (engagements st) with
        | None => Raise KeyError (* not reached: [target] is a key here *)
        | Some current =>
            target_preferences <- subscript receivers target ;;
            let calls' :=
              calls st ++ [(proposer, current, target_preferences)] in
            if truthy (preferred proposer current target_preferences) then
              engaged <-
                dict_del current
                  (dict_set proposer target
                     (dict_set target proposer (engagements st))) ;;
              Ok (mkState history' engaged calls')
            else Ok (mkState history' (engagements st) calls')
        end
  end.

(** The four ways a proposal step can end, read off [propose]: nobody
    left to propose to, a first match with a free target, the incumbent
    replaced, or the proposer turned down.  Every successful [propose] is
    one of them ([propose_Ok] below); the relation keeps what the
    invariants need and leaves the updated history open. *)
Inductive proposal (proposer : Person) (st : state) : state -> Prop :=
| nothing_left :
    proposal proposer st st
| first_match preferences target history' :
    dict_get proposer proposers = Some preferences ->
    In target preferences ->
    dict_get target (engagements st) = None ->
    proposal proposer st
      (mkState history'
         (dict_set target proposer (dict_set proposer target (engagements st)))
         (calls st))
| replaced preferences target history' current target_preferences :
    dict_get proposer proposers = Some preferences ->
    In target preferences ->
    dict_get target (engagements st) = Some current ->
    dict_get target receivers = Some target_preferences ->
    preferred proposer current target_preferences = Some true ->
    proposal proposer st
      (mkState history'
         (dict_remove current
            (dict_set proposer target
               (dict_set target proposer (engagements st))))
         (calls st ++ [(proposer, current, target_preferences)]))
| turned_down preferences target history' current target_preferences :
    dict_get proposer proposers = Some preferences ->
    In target preferences ->
    dict_get target (engagements st) = Some current ->
    dict_get target receivers = Some target_preferences ->
    proposal proposer st
      (mkState history' (engagements st)
         (calls st ++ [(proposer, current, target_preferences)])).

(** One sweep: the whole [for proposer in free_proposers] loop. *)
Fixpoint sweep (free_proposers : list Person) (st : state) : outcome state :=
  match free_proposers with
  | [] => Ok st
  | proposer :: rest => st' <- propose proposer st ;; sweep rest st'
  end.

(** [while free_proposers: ...]; one unit of fuel per sweep. *)
Fixpoint loop (fuel : nat) (free_proposers : list Person) (st : state)
  : outcome state :=
  match free_proposers with
  | [] => Ok st
  | _ :: _ =>
      match fuel with
      | O => OutOfFuel
      | S fuel' =>
          st' <- sweep free_proposers st ;;
          loop fuel' (free_participants free_proposers (engagements st')) st'
      end
  end.

(** Loop heads: the values of [free_proposers] and of the state each time
    the [while] condition is evaluated. *)
Inductive loop_head : list Person -> state -> Prop :=
| head_first : loop_head (dict_keys proposers) initial_state
| head_next free_proposers st st' :
    loop_head free_proposers st ->
    free_proposers <> [] ->
    sweep free_proposers st = Ok st' ->
    loop_head (free_participants free_proposers (engagements st')) st'.

(** The states between two proposal steps: a sweep that started at a loop
    head has handled a prefix [done] of its proposers. *)
Definition between_steps (st : state) : Prop :=
  exists free_proposers st0 done todo,
    loop_head free_proposers st0 /\
    free_proposers = done ++ todo /\
    sweep done st0 = Ok st.

End Engine.

(** ** Result composer *)

Definition pair_eqb (x y : Pair) : bool :=
  (fst x =? fst y) && (snd x =? snd y).

(** A Python [set] of pairs while it is being built: its elements, each
    once. *)
Definition set_mem (x : Pair) (s : list Pair) : bool :=
  existsb (pair_eqb x) s.

Definition set_add (x : Pair) (s : list Pair) : list Pair :=
  if set_mem x s then s else s ++ [x].

(** The body [if (b, a) not in s: s.add((a, b))] of the composing loop. *)
Definition add_couple (s : list Pair) (ab : Pair) : list Pair :=
  if set_mem (snd ab, fst ab) s then s else set_add ab s.

(** [for a, b in engagements.items(): ...] starting from the empty set. *)
Definition compose (engaged : Matching) : list Pair :=
  fold_left add_couple engaged [].

(** [list(stable_matchings)] enumerates a set of tuples of [str].  The
    order is fixed by the string hashes, which CPython salts per
    interpreter process; all the program text determines is that the list
    holds the elements of the set, each once. *)
Record SetOrder := {
  set_iter : list Pair -> list Pair;
  set_iter_perm : forall s, Permutation (set_iter s) s
}.

Definition insertion_order : SetOrder :=
  {| set_iter := fun s => s;
     set_iter_perm := fun s => Permutation_refl s |}.

Definition reversed_order : SetOrder :=
  {| set_iter := fun s => rev s;
     set_iter_perm := fun s => Permutation_sym (Permutation_rev s) |}.

(** ** The entry point *)

(** Lines 120-160: validation, set-up and the proposal loop. *)
Definition proposal_engine (fuel : nat) (participants : Participants)
  : outcome state :=
  complete <- all_preferences participants ;;
  if negb complete then Raise MissingPreferences
  else
    let sides := dict_keys participants in
    match sides with
    | [] => Raise IndexError
    | proposing :: _ =>
        let receiving := other_side proposing sides in
        proposers <- subscript participants proposing ;;
        receivers <- subscript_opt participants receiving ;;
        loop proposers receivers fuel (dict_keys proposers)
          (initial_state proposers)
    end.

Definition stable_matching (O : SetOrder) (fuel : nat)
  (participants : Participants) : outcome Stable_Matching :=
  st <- proposal_engine fuel participants ;;
  Ok (set_iter O (compose (engagements st))).

(** ** Inputs used below *)

(** The data set of the module's docstring and [__main__] block. *)
Definition sample_proposers : Side :=
  [ ("abc", ["123"; "451"; "912"]);
    ("asd", ["123"; "912"; "451"]);
    ("pqq", ["123"; "451"; "912"]) ].

Definition sample_receivers : Side :=
  [ ("123", ["pqq"; "asd"; "abc"]);
    ("451", ["asd"; "pqq"; "abc"]);
    ("912", ["pqq"; "asd"; "abc"]) ].

Definition sample_participants : Participants :=
  [ ("side_A", sample_proposers); ("side_B", sample_receivers) ].

(** Three against three, complete lists.  [c] takes [y] from [b] in the
    first sweep; in the second sweep [b] takes [x] from [a], who was
    engaged since the first sweep. *)
Definition displaced_proposers : Side :=
  [ ("a", ["x"; "y"; "z"]);
    ("b", ["y"; "x"; "z"]);
    ("c", ["y"; "x"; "z"]) ].

Definition displaced_receivers : Side :=
  [ ("x", ["b"; "a"; "c"]);
    ("y", ["c"; "b"; "a"]);
    ("z", ["a"; "b"; "c"]) ].

Definition displaced_participants : Participants :=
  [ ("side_A", displaced_proposers); ("side_B", displaced_receivers) ].

(** Four against four, complete lists: as above, with a fourth proposer
    [d] who is turned down in the first two sweeps, so that a third sweep
    starts. *)
Definition late_proposers : Side :=
  [ ("a", ["x"; "y"; "z"; "w"]);
    ("b", ["y"; "x"; "z"; "w"]);
    ("c", ["y"; "x"; "z"; "w"]);
    ("d", ["y"; "x"; "z"; "w"]) ].

Definition late_receivers : Side :=
  [ ("x", ["b"; "a"; "d"; "c"]);
    ("y", ["c"; "d"; "b"; "a"]);
    ("z", ["a"; "b"; "c"; "d"]);
    ("w", ["a"; "b"; "c"; "d"]) ].

Definition late_participants : Participants :=
  [ ("side_A", late_proposers); ("side_B", late_receivers) ].

(** Two proposers, one receiver, complete lists. *)
Definition surplus_proposers : Side := [ ("a", ["x"]); ("b", ["x"]) ].
Definition surplus_receivers : Side := [ ("x", ["a"; "b"]) ].
Definition surplus_participants : Participants :=
  [ ("side_A", surplus_proposers); ("side_B", surplus_receivers) ].

(** The state of that run after its first sweep: [a] holds [x], and [b],
    turned down by [x], has nobody left on its list. *)
Definition surplus_stuck : state :=
  mkState [("a", [("x", "")]); ("b", [("x", "")])]
          [("a", "x"); ("x", "a")]
          [("b", "a", ["a"; "b"])].

(** ** Vocabulary of the properties *)

(** Some preference list of [people] leaves out a member of [other]. *)
Definition omits (people other : Side) : Prop :=
  exists name preferences o,
    In (name, preferences) people /\
    In o (dict_keys other) /\
    ~ In o preferences.

(** [x] and [y] form a pair of the returned list, in either orientation. *)
Definition matched (l : Stable_Matching) (x y : Person) : Prop :=
  In (x, y) l \/ In (y, x) l.

(** [who], whose preference list is found in [side], ranks [a] before [b]. *)
Definition prefers (side : Side) (who a b : Person) : Prop :=
  exists preferences,
    dict_get who side = Some preferences /\
    preferred a b preferences = Some true.

(** [p] and [r] block the matching [l]: they are not paired, [p] ranks [r]
    above every partner it has in [l] and [r] ranks [p] above every partner
    it has in [l] (nothing to compare for an unmatched participant). *)
Definition blocking_pair (proposers receivers : Side) (l : Stable_Matching)
  (p r : Person) : Prop :=
  In p (dict_keys proposers) /\
  In r (dict_keys receivers) /\
  ~ matched l p r /\
  (forall r', matched l p r' -> prefers proposers p r r') /\
  (forall p', matched l r p' -> prefers receivers r p p').

(** The engagement invariant of the data model. *)
Definition symmetric (engaged : Matching) : Prop :=
  forall x y, dict_get x engaged = Some y -> dict_get y engaged = Some x.

Definition engagement_ok (engaged : Matching) : Prop :=
  symmetric engaged /\ NoDup (dict_keys engaged).

(** No proposer is named in a proposer's preference list: the lists of one
    side only name people of the other side, and the sides are disjoint. *)
Definition apart (proposers : Side) : bool :=
  forallb
    (fun np => forallb (fun t => negb (member t (dict_keys proposers))) (snd np))
    proposers.

(** The proposers' lists only name receivers. *)
Definition known_targets (proposers receivers : Side) : bool :=
  forallb
    (fun np => forallb (fun t => member t (dict_keys receivers)) (snd np))
    proposers.

(** [a] is a proposer and [b] is on its preference list. *)
Definition couple_of (proposers : Side) (a b : Person) : Prop :=
  exists preferences, In (a, preferences) proposers /\ In b preferences.

Definition entries_sided (proposers : Side) (engaged : Matching) : Prop :=
  forall k v, In (k, v) engaged -> couple_of proposers k v \/ couple_of proposers v k.



(** [x] is one of the two members of the pair. *)
Definition occurs (x : Person) (ab : Pair) : Prop := fst ab = x \/ snd ab = x.

(** The same couple, read in either orientation. *)
Definition same_couple (ab cd : Pair) : Prop :=
  ab = cd \/ ab = (snd cd, fst cd).

(** The same couples, in any order and orientation. *)
Definition same_couples (l expected : list Pair) : Prop :=
  exists l', Permutation l l' /\ Forall2 same_couple l' expected.

(** What a call [preferred(a, b, preferences)] needs to answer: [a] is a
    proposer and [preferences] is the list of a receiver, on which every
    proposer occurs. *)
Definition call_ok (proposers receivers : Side)
  (c : Person * Person * Preferences) : Prop :=
  let '(a, b, preferences) := c in
  In a (dict_keys proposers) /\
  (exists target, dict_get target receivers = Some preferences) /\
  (forall p, In p (dict_keys proposers) -> In p preferences) /\
  exists answer, preferred a b preferences = Some answer.

(** The call compares two proposers. *)
Definition compares_proposers (proposers : Side)
  (c : Person * Person * Preferences) : Prop :=
  let '(a, b, _) := c in
  In a (dict_keys proposers) /\ In b (dict_keys proposers).


(** The invariant carried through a sweep with [todo] still to propose. *)
Definition sweep_inv (proposers : Side) (todo : list Person) (st : state)
  : Prop :=
  NoDup todo /\
  (forall p, In p todo ->
     In p (dict_keys proposers) /\ dict_get p (engagements st) = None) /\
  engagement_ok (engagements st) /\
  entries_sided proposers (engagements st).

(** ** Vocabulary of the further properties *)

(** [target in proposal_history[proposer]], false for an unknown proposer. *)
Definition proposed_to (history : dict (dict string))
  (proposer target : Person) : bool :=
  match dict_get proposer history with
  | Some proposed => dict_mem target proposed
  | None => false
  end.

(** The history has an entry for every proposer, and the entry of a
    proposer holds names of its list only, closed under "ranked before by
    [preferred]". *)
Definition history_ok (proposers : Side) (history : dict (dict string))
  : Prop :=
  dict_keys history = dict_keys proposers /\
  forall p preferences,
    dict_get p proposers = Some preferences ->
    (forall t, proposed_to history p t = true -> In t preferences) /\
    (forall t t',
       proposed_to history p t = true ->
       preferred t' t preferences = Some true ->
       proposed_to history p t' = true).

(** [r], partner of [c] before, has [c'] now: the same, or one it ranks
    before [c]. *)
Definition never_worse (receivers : Side) (r c c' : Person) : Prop :=
  c' = c \/ prefers receivers r c' c.

(** Everybody engaged in [engaged] who is not a proposer is still engaged
    in [engaged'], and not to a partner it ranks lower. *)
Definition receivers_keep (proposers receivers : Side)
  (engaged engaged' : Matching) : Prop :=
  forall r c,
    ~ In r (dict_keys proposers) ->
    dict_get r engaged = Some c ->
    exists c', dict_get r engaged' = Some c' /\ never_worse receivers r c c'.

(** The number of entries of all preference lists of a side. *)
Definition total_preferences (proposers : Side) : nat :=
  list_sum (map (fun np => length (snd np)) proposers).

(** The entries of a proposer's list it has not proposed to yet, and their
    number over all proposers. *)
Definition unproposed (history : dict (dict string))
  (np : string * Preferences) : nat :=
  length (filter (fun t => negb (proposed_to history (fst np) t)) (snd np)).

Definition remaining (proposers : Side) (history : dict (dict string)) : nat :=
  list_sum (map (unproposed history) proposers).

(** Everybody some proposer has proposed to is engaged. *)
Definition proposed_engaged (st : state) : Prop :=
  forall p t,
    proposed_to (proposal_history st) p t = true ->
    dict_mem t (engagements st) = true.

(** What a sweep with [todo] still to propose keeps, on top of
    [sweep_inv], when nothing is raised. *)
Definition run_inv (proposers : Side) (todo : list Person) (st : state)
  : Prop :=
  sweep_inv proposers todo st /\
  history_ok proposers (proposal_history st) /\
  proposed_engaged st.

(** [p] is free and the scan of its list finds nobody left. *)
Definition stuck (p : Person) (preferences : Preferences) (st : state)
  : Prop :=
  dict_get p (engagements st) = None /\
  next_target (proposal_history st) p preferences = Ok None.

(** Whoever [p] has proposed to is engaged, to [p] itself or to somebody
    it ranks before [p]. *)
Definition rejections_ok (receivers : Side) (st : state) : Prop :=
  forall p r,
    proposed_to (proposal_history st) p r = true ->
    exists c,
      dict_get r (engagements st) = Some c /\ never_worse receivers r p c.

(** An engaged proposer has proposed to its partner. *)
Definition partners_proposed (proposers : Side) (st : state) : Prop :=
  forall p t,
    In p (dict_keys proposers) ->
    dict_get p (engagements st) = Some t ->
    proposed_to (proposal_history st) p t = true.

(** The invariant behind the stability of matched proposers. *)
Definition deferred_inv (proposers receivers : Side) (todo : list Person)
  (st : state) : Prop :=
  sweep_inv proposers todo st /\
  history_ok proposers (proposal_history st) /\
  rejections_ok receivers st /\
  partners_proposed proposers st.

(** * Properties *)

(** ** Names and dicts *)

Ltac name_cases a b := destruct (String.eqb_spec a b); subst; simpl; try congruence.

Lemma member_In x l : member x l = true <-> In x l.
Proof.
  unfold member. rewrite existsb_exists. split.
  - intros [y [Hy He]]. apply String.eqb_eq in He. subst. exact Hy.
  - intros H. exists x. split; [exact H | apply String.eqb_refl].
Qed.

Lemma member_false x l : member x l = false <-> ~ In x l.
Proof.
  rewrite <- member_In. destruct (member x l); split; congruence.
Qed.

Lemma distinct_NoDup l : distinct l = true <-> NoDup l.
Proof.
  induction l as [|x l IH]; simpl.
  - split; [constructor | reflexivity].
  - rewrite andb_true_iff, negb_true_iff, IH, member_false. split.
    + intros [Hm Hd]. constructor; assumption.
    + intros H. inversion H; subst. split; assumption.
Qed.

Lemma dict_get_set_eq {V} k (v : V) d : dict_get k (dict_set k v d) = Some v.
Proof.
  induction d as [|[k' v'] d IH]; simpl.
  - now rewrite String.eqb_refl.
  - destruct (k =? k') eqn:E; simpl.
    + now rewrite String.eqb_refl.
    + now rewrite E.
Qed.

Lemma dict_get_set_neq {V} k k' (v : V) d :
  k <> k' -> dict_get k' (dict_set k v d) = dict_get k' d.
Proof.
  intros Hne. induction d as [|[k0 v0] d IH]; simpl.
  - name_cases k' k.
  - name_cases k k0.
    + name_cases k' k0.
    + name_cases k' k0.
Qed.

Lemma dict_get_remove_eq {V} k (d : dict V) : dict_get k (dict_remove k d) = None.
Proof.
  induction d as [|[k0 v0] d IH]; simpl; [reflexivity|].
  name_cases k0 k. name_cases k k0.
Qed.

Lemma dict_get_remove_neq {V} k k' (d : dict V) :
  k <> k' -> dict_get k' (dict_remove k d) = dict_get k' d.
Proof.
  intros Hne. induction d as [|[k0 v0] d IH]; simpl; [reflexivity|].
  name_cases k0 k.
  - name_cases k' k.
  - now rewrite IH.
Qed.

Lemma dict_get_In {V} k (v : V) d : dict_get k d = Some v -> In (k, v) d.
Proof.
  induction d as [|[k0 v0] d IH]; simpl; [discriminate|].
  name_cases k k0.
  - intros [= ->]. now left.
  - intros H. right. now apply IH.
Qed.

Lemma dict_get_None {V} k (d : dict V) :
  dict_get k d = None <-> ~ In k (dict_keys d).
Proof.
  induction d as [|[k0 v0] d IH]; simpl.
  - tauto.
  - name_cases k k0.
    + split; [discriminate | intros H; exfalso; apply H; now left].
    + rewrite IH. split; [intros H [E|I]; congruence | tauto].
Qed.

Lemma In_dict_get {V} k (v : V) d :
  NoDup (dict_keys d) -> In (k, v) d -> dict_get k d = Some v.
Proof.
  induction d as [|[k0 v0] d IH]; simpl; [tauto|].
  intros Hnd [E|I].
  - injection E as -> ->. now rewrite String.eqb_refl.
  - inversion Hnd; subst. name_cases k k0.
    + exfalso. apply H1. change k0 with (fst (k0, v)). now apply in_map.
    + now apply IH.
Qed.

Lemma dict_mem_true {V} k (d : dict V) :
  dict_mem k d = true <-> exists v, dict_get k d = Some v.
Proof.
  unfold dict_mem. destruct (dict_get k d) as [v|].
  - split; [intros _; now exists v | reflexivity].
  - split; [discriminate | intros [v H]; discriminate].
Qed.

Lemma dict_mem_false {V} k (d : dict V) :
  dict_mem k d = false <-> dict_get k d = None.
Proof.
  unfold dict_mem. destruct (dict_get k d); split; congruence.
Qed.

Lemma dict_set_In {V} k (v : V) d kv :
  In kv (dict_set k v d) -> kv = (k, v) \/ In kv d.
Proof.
  induction d as [|[k0 v0] d IH]; simpl.
  - intros [E|[]]. now left.
  - destruct (k =? k0); simpl.
    + intros [E|I]; [now left | right; now right].
    + intros [E|I]; [right; now left|].
      destruct (IH I) as [E|I']; [now left | right; now right].
Qed.

Lemma dict_remove_In {V} k (d : dict V) kv : In kv (dict_remove k d) -> In kv d.
Proof.
  unfold dict_remove. rewrite filter_In. tauto.
Qed.

Lemma dict_keys_set {V} k (v : V) d :
  dict_keys (dict_set k v d) =
  if dict_mem k d then dict_keys d else dict_keys d ++ [k].
Proof.
  unfold dict_mem. induction d as [|[k0 v0] d IH]; simpl; [reflexivity|].
  name_cases k k0.
  rewrite IH. now destruct (dict_get k d).
Qed.

Lemma NoDup_snoc {A} (x : A) l : NoDup l -> ~ In x l -> NoDup (l ++ [x]).
Proof.
  intros Hnd Hni. apply Permutation_NoDup with (l := x :: l).
  - apply Permutation_cons_append.
  - now constructor.
Qed.

Lemma dict_set_NoDup {V} k (v : V) d :
  NoDup (dict_keys d) -> NoDup (dict_keys (dict_set k v d)).
Proof.
  intros Hnd. rewrite dict_keys_set. destruct (dict_mem k d) eqn:E; [exact Hnd|].
  apply NoDup_snoc; [exact Hnd|]. now apply dict_get_None, dict_mem_false.
Qed.

Lemma dict_remove_NoDup {V} k (d : dict V) :
  NoDup (dict_keys d) -> NoDup (dict_keys (dict_remove k d)).
Proof.
  induction d as [|[k0 v0] d IH]; simpl; [trivial|].
  intros Hnd. inversion Hnd; subst.
  destruct (negb (k0 =? k)); simpl; [|now apply IH].
  constructor; [|now apply IH].
  intros Hin. apply H1. unfold dict_keys in *. rewrite in_map_iff in *.
  destruct Hin as [kv [E I]]. exists kv. split; [exact E|].
  now apply dict_remove_In in I.
Qed.

(** ** Outcomes *)

Lemma bind_Ok {A B} (c : outcome A) (k : A -> outcome B) b :
  bind c k = Ok b -> exists a, c = Ok a /\ k a = Ok b.
Proof.
  destruct c as [a| |]; simpl; try discriminate. intros H. now exists a.
Qed.

Lemma bind_Raise {A B} (c : outcome A) (k : A -> outcome B) e :
  bind c k = Raise e -> c = Raise e \/ exists a, c = Ok a /\ k a = Raise e.
Proof.
  destruct c as [a| |]; simpl; try discriminate.
  - intros H. right. now exists a.
  - intros [= ->]. now left.
Qed.

Lemma subscript_Ok {V} (d : dict V) k v :
  subscript d k = Ok v <-> dict_get k d = Some v.
Proof.
  unfold subscript. destruct (dict_get k d); split; congruence.
Qed.

Lemma subscript_Raise {V} (d : dict V) k e :
  subscript d k = Raise e -> e = KeyError.
Proof.
  unfold subscript. destruct (dict_get k d); congruence.
Qed.

Lemma subscript_opt_Raise {V} (d : dict V) k e :
  subscript_opt d k = Raise e -> e = KeyError.
Proof.
  destruct k; simpl; [apply subscript_Raise | congruence].
Qed.

(** ** Validator *)

Lemma forallb_false {A} (f : A -> bool) l :
  forallb f l = false <-> exists x, In x l /\ f x = false.
Proof.
  induction l as [|y l IH]; simpl.
  - split; [discriminate | intros [x [[] _]]].
  - rewrite andb_false_iff, IH. split.
    + intros [H|[x [I H]]]; [exists y | exists x]; auto.
    + intros [x [[->|I] H]]; [now left | right; now exists x].
Qed.

Lemma unranked_omits people other :
  forallb (fun np => ranks_all other (snd np)) people = false <->
  omits people other.
Proof.
  rewrite forallb_false. unfold omits, ranks_all. split.
  - intros [[name preferences] [I H]]. simpl in H.
    apply forallb_false in H. destruct H as [o [Io Ho]].
    exists name, preferences, o. repeat split; auto. now apply member_false.
  - intros [name [preferences [o [I [Io Ho]]]]].
    exists (name, preferences). split; [exact I|]. simpl.
    apply forallb_false. exists o. split; [exact Io | now apply member_false].
Qed.

(** On two sides with distinct labels the validator checks the first side
    against the second, then the second against the first. *)
Lemma all_preferences_two_sides sA A sB B :
  sA <> sB ->
  all_preferences [(sA, A); (sB, B)] =
  Ok (forallb (fun np => ranks_all B (snd np)) A &&
      forallb (fun np => ranks_all A (snd np)) B).
Proof.
  intros Hne.
  assert (EAB : (sA =? sB) = false) by now apply String.eqb_neq.
  assert (EBA : (sB =? sA) = false) by (apply String.eqb_neq; congruence).
  unfold all_preferences. simpl.
  repeat (rewrite ?String.eqb_refl, ?EAB, ?EBA; unfold subscript; simpl).
  destruct (forallb (fun np => ranks_all B (snd np)) A); simpl; [|reflexivity].
  now destruct (forallb (fun np => ranks_all A (snd np)) B).
Qed.

Lemma all_preferences_same_label s A B :
  all_preferences [(s, A); (s, B)] = Raise KeyError.
Proof.
  unfold all_preferences. simpl. now rewrite String.eqb_refl.
Qed.

(** What a passed validation says about two sides. *)
Lemma validated_two_sides sA A sB B :
  all_preferences [(sA, A); (sB, B)] = Ok true ->
  sA <> sB /\
  (forall name preferences o,
     In (name, preferences) A -> In o (dict_keys B) -> In o preferences) /\
  (forall name preferences o,
     In (name, preferences) B -> In o (dict_keys A) -> In o preferences).
Proof.
  intros H. destruct (String.eqb_spec sA sB) as [->|Hne].
  - rewrite all_preferences_same_label in H. discriminate.
  - rewrite all_preferences_two_sides in H by exact Hne.
    injection H as H. apply andb_true_iff in H. destruct H as [HA HB].
    split; [exact Hne|].
    split; intros name preferences o I Io.
    + rewrite forallb_forall in HA. specialize (HA _ I). simpl in HA.
      unfold ranks_all in HA. rewrite forallb_forall in HA.
      now apply member_In, HA.
    + rewrite forallb_forall in HB. specialize (HB _ I). simpl in HB.
      unfold ranks_all in HB. rewrite forallb_forall in HB.
      now apply member_In, HB.
Qed.

(** ** The loop raises nothing but [KeyError] *)

Section EngineFacts.

Variable proposers receivers : Side.

Lemma next_target_Raise history proposer preferences e :
  next_target history proposer preferences = Raise e -> e = KeyError.
Proof.
  induction preferences as [|t rest IH]; simpl; [discriminate|].
  intros H. apply bind_Raise in H. destruct H as [H|[h [_ H]]].
  - now apply subscript_Raise in H.
  - destruct (negb (dict_mem t h)); [discriminate | now apply IH].
Qed.

Lemma propose_Raise proposer st e :
  propose proposers receivers proposer st = Raise e -> e = KeyError.
Proof.
  unfold propose. intros H.
  apply bind_Raise in H. destruct H as [H|[prefs [_ H]]];
    [now apply subscript_Raise in H|].
  apply bind_Raise in H. destruct H as [H|[found [_ H]]];
    [now apply next_target_Raise in H|].
  destruct found as [target|]; [|discriminate].
  apply bind_Raise in H. destruct H as [H|[proposed [_ H]]];
    [now apply subscript_Raise in H|].
  destruct (is_free target (engagements st)); [discriminate|].
  destruct (current_match target (engagements st)) as [current|]; [|congruence].
  apply bind_Raise in H. destruct H as [H|[tp [_ H]]];
    [now apply subscript_Raise in H|].
  destruct (truthy (preferred proposer current tp)); [|discriminate].
  apply bind_Raise in H. destruct H as [H|[eng [_ H]]]; [|discriminate].
  unfold dict_del in H.
  destruct (dict_mem current _); congruence.
Qed.

Lemma sweep_Raise free_proposers st e :
  sweep proposers receivers free_proposers st = Raise e -> e = KeyError.
Proof.
  revert st. induction free_proposers as [|p rest IH]; simpl; intros st H;
    [discriminate|].
  apply bind_Raise in H. destruct H as [H|[st' [_ H]]].
  - now apply propose_Raise in H.
  - now apply IH in H.
Qed.

Lemma loop_Raise fuel free_proposers st e :
  loop proposers receivers fuel free_proposers st = Raise e -> e = KeyError.
Proof.
  revert free_proposers st.
  induction fuel as [|fuel IH]; intros [|p rest] st; simpl; try discriminate.
  intros H. apply bind_Raise in H. destruct H as [H|[st' [_ H]]].
  - now apply (sweep_Raise (p :: rest)) in H.
  - now apply IH in H.
Qed.

Lemma loop_nil fuel st : loop proposers receivers fuel [] st = Ok st.
Proof. now destruct fuel. Qed.

End EngineFacts.

(** On two sides the engine validates, then loops with the first side
    proposing to the second. *)
Lemma proposal_engine_two_sides fuel sA A sB B :
  sA <> sB ->
  proposal_engine fuel [(sA, A); (sB, B)] =
  if forallb (fun np => ranks_all B (snd np)) A &&
     forallb (fun np => ranks_all A (snd np)) B
  then loop A B fuel (dict_keys A) (initial_state A)
  else Raise MissingPreferences.
Proof.
  intros Hne. unfold proposal_engine.
  rewrite all_preferences_two_sides by exact Hne. simpl.
  assert (EBA : (sB =? sA) = false) by (apply String.eqb_neq; congruence).
  destruct (_ && _); simpl; [|reflexivity].
  repeat (rewrite ?String.eqb_refl, ?EBA; unfold subscript; simpl).
  reflexivity.
Qed.

Lemma stable_matching_Raise O fuel participants e :
  stable_matching O fuel participants = Raise e ->
  proposal_engine fuel participants = Raise e.
Proof.
  unfold stable_matching. intros H.
  apply bind_Raise in H. destruct H as [H|[st [_ H]]]; [exact H | discriminate].
Qed.

(** C4. On two sides, [stable_matching] raises [MissingPreferences] exactly
    when the preference list of some participant leaves out a participant
    of the opposite side.  The equivalence holds for every amount of fuel,
    fuel 0 included, at which no sweep of the proposal loop can run: the
    exception is raised by the validation alone, and the outcome [Raise]
    carries no matching. *)
Theorem missing_preferences_iff O fuel sA A sB B :
  sA <> sB ->
  stable_matching O fuel [(sA, A); (sB, B)] = Raise MissingPreferences <->
  omits A B \/ omits B A.
Proof.
  intros Hne. unfold stable_matching.
  rewrite proposal_engine_two_sides by exact Hne.
  rewrite <- !unranked_omits.
  destruct (forallb (fun np => ranks_all B (snd np)) A);
    destruct (forallb (fun np => ranks_all A (snd np)) B); simpl;
    try (split; [auto | reflexivity]).
  split; [|intros [H|H]; discriminate].
  intros H. apply bind_Raise in H. destruct H as [H|[st [_ H]]].
  - apply loop_Raise in H. discriminate.
  - discriminate.
Qed.

Lemma missing_preferences_iff_witness :
  stable_matching insertion_order 0
    [("side_A", [("abc", ["123"])]); ("side_B", [("123", []) ])]
  = Raise MissingPreferences <->
  omits [("abc", ["123"])] [("123", [])] \/
  omits [("123", [])] [("abc", ["123"])].
Proof.
  apply missing_preferences_iff. discriminate.
Defined.

(** ** One proposal step *)

Section StepFacts.

Variable proposers receivers : Side.

Lemma next_target_In history proposer preferences target :
  next_target history proposer preferences = Ok (Some target) ->
  In target preferences.
Proof.
  induction preferences as [|t rest IH]; simpl; [discriminate|].
  intros H. apply bind_Ok in H. destruct H as [h [_ H]].
  destruct (negb (dict_mem t h)).
  - injection H as ->. now left.
  - right. now apply IH.
Qed.

Lemma truthy_true r : truthy r = true -> r = Some true.
Proof. destruct r as [[|]|]; simpl; congruence. Qed.

(** Every successful [propose] is one of the four proposal steps. *)
Lemma propose_Ok proposer st st' :
  propose proposers receivers proposer st = Ok st' ->
  proposal proposers receivers proposer st st'.
Proof.
  unfold propose. intros H.
  apply bind_Ok in H. destruct H as [preferences [Hp H]].
  apply subscript_Ok in Hp.
  apply bind_Ok in H. destruct H as [found [Hf H]].
  destruct found as [target|]; [|injection H as <-; constructor].
  apply next_target_In in Hf.
  apply bind_Ok in H. destruct H as [proposed [_ H]].
  unfold is_free, current_match in H.
  destruct (dict_mem target (engagements st)) eqn:Em; simpl in H.
  - apply dict_mem_true in Em. destruct Em as [current Ec].
    rewrite Ec in H.
    apply bind_Ok in H. destruct H as [tp [Ht H]].
    apply subscript_Ok in Ht.
    destruct (truthy (preferred proposer current tp)) eqn:Et.
    + apply truthy_true in Et.
      apply bind_Ok in H. destruct H as [engaged [Hd H]].
      unfold dict_del in Hd. destruct (dict_mem current _); [|discriminate].
      injection Hd as <-. injection H as <-.
      eapply replaced; eassumption.
    + injection H as <-. eapply turned_down; eassumption.
  - apply dict_mem_false in Em. injection H as <-.
    eapply first_match; eassumption.
Qed.

(** The two updates of the engagement dict keep it symmetric. *)
Lemma symmetric_engage engaged p t :
  symmetric engaged ->
  dict_get p engaged = None ->
  dict_get t engaged = None ->
  p <> t ->
  symmetric (dict_set t p (dict_set p t engaged)).
Proof.
  intros Hs Hp Ht Hne x y H.
  destruct (string_dec x t) as [->|Hxt].
  - rewrite dict_get_set_eq in H. injection H as <-.
    rewrite dict_get_set_neq by congruence. apply dict_get_set_eq.
  - rewrite dict_get_set_neq in H by congruence.
    destruct (string_dec x p) as [->|Hxp].
    + rewrite dict_get_set_eq in H. injection H as <-. apply dict_get_set_eq.
    + rewrite dict_get_set_neq in H by congruence.
      assert (y <> t) by (intros ->; apply Hs in H; congruence).
      assert (y <> p) by (intros ->; apply Hs in H; congruence).
      rewrite !dict_get_set_neq by congruence. now apply Hs.
Qed.

Lemma symmetric_replace engaged p t c :
  symmetric engaged ->
  dict_get p engaged = None ->
  dict_get t engaged = Some c ->
  p <> t ->
  c <> t ->
  symmetric (dict_remove c (dict_set p t (dict_set t p engaged))).
Proof.
  intros Hs Hp Ht Hne Hct x y H.
  assert (Hc : dict_get c engaged = Some t) by now apply Hs.
  assert (Hcp : c <> p) by congruence.
  destruct (string_dec x c) as [->|Hxc];
    [rewrite dict_get_remove_eq in H; discriminate|].
  rewrite dict_get_remove_neq in H by congruence.
  destruct (string_dec x p) as [->|Hxp].
  - rewrite dict_get_set_eq in H. injection H as <-.
    rewrite dict_get_remove_neq, dict_get_set_neq by congruence.
    apply dict_get_set_eq.
  - rewrite dict_get_set_neq in H by congruence.
    destruct (string_dec x t) as [->|Hxt].
    + rewrite dict_get_set_eq in H. injection H as <-.
      rewrite dict_get_remove_neq by congruence. apply dict_get_set_eq.
    + rewrite dict_get_set_neq in H by congruence.
      assert (y <> c) by (intros ->; apply Hs in H; congruence).
      assert (y <> p) by (intros ->; apply Hs in H; congruence).
      assert (y <> t) by (intros ->; apply Hs in H; congruence).
      rewrite dict_get_remove_neq, !dict_get_set_neq by congruence.
      now apply Hs.
Qed.

Lemma couple_of_key a b : couple_of proposers a b -> In a (dict_keys proposers).
Proof.
  intros [preferences [I _]]. change a with (fst (a, preferences)).
  now apply in_map.
Qed.

(** Whatever the input, an engagement entry joins a proposer and a name on
    that proposer's list. *)
Lemma proposal_entries_sided proposer st st' :
  proposal proposers receivers proposer st st' ->
  entries_sided proposers (engagements st) ->
  entries_sided proposers (engagements st').
Proof.
  intros Hstep Hes.
  destruct Hstep as [|preferences target h Hp It Ht
                     |preferences target h current tp Hp It Ht Hr Hpref
                     |preferences target h current tp Hp It Ht Hr];
    simpl; try exact Hes;
    assert (Hc : couple_of proposers proposer target)
      by (exists preferences; split; [now apply dict_get_In | exact It]).
  - intros k v I.
    apply dict_set_In in I. destruct I as [[= -> ->]|I]; [now right|].
    apply dict_set_In in I. destruct I as [[= -> ->]|I]; [now left|].
    now apply Hes.
  - intros k v I. apply dict_remove_In in I.
    apply dict_set_In in I. destruct I as [[= -> ->]|I]; [now left|].
    apply dict_set_In in I. destruct I as [[= -> ->]|I]; [now right|].
    now apply Hes.
Qed.

Lemma apart_spec name preferences t :
  apart proposers = true ->
  In (name, preferences) proposers ->
  In t preferences ->
  ~ In t (dict_keys proposers).
Proof.
  unfold apart. rewrite forallb_forall. intros Ha I It.
  specialize (Ha _ I). simpl in Ha. rewrite forallb_forall in Ha.
  specialize (Ha _ It). apply negb_true_iff in Ha. now apply member_false.
Qed.

(** A proposal step by the first pending proposer keeps the sweep
    invariant for the proposers still pending. *)
Lemma proposal_sweep_inv proposer todo st st' :
  apart proposers = true ->
  sweep_inv proposers (proposer :: todo) st ->
  proposal proposers receivers proposer st st' ->
  sweep_inv proposers todo st'.
Proof.
  intros Ha [Hnd [Hfree [[Hs Hk] Hes]]] Hstep.
  assert (Hes' := proposal_entries_sided _ _ _ Hstep Hes).
  inversion Hnd as [|? ? Hni Hnd']; subst.
  destruct (Hfree proposer (or_introl eq_refl)) as [Hin Hp].
  assert (Hrest : forall q, In q todo ->
            In q (dict_keys proposers) /\ dict_get q (engagements st) = None)
    by (intros q I; apply Hfree; now right).
  destruct Hstep as [|preferences target h Hpp It Ht
                     |preferences target h current tp Hpp It Ht Hr Hpref
                     |preferences target h current tp Hpp It Ht Hr];
    simpl in *.
  - split; [exact Hnd'|]. split; [exact Hrest|]. now repeat split.
  - assert (Hnt : ~ In target (dict_keys proposers))
      by (eapply apart_spec; eauto using dict_get_In).
    assert (Hpt : proposer <> target) by congruence.
    split; [exact Hnd'|]. split; [|split; [split|exact Hes']].
    + intros q Iq. destruct (Hrest q Iq) as [Hq1 Hq2]. split; [exact Hq1|].
      simpl. rewrite !dict_get_set_neq; congruence.
    + now apply symmetric_engage.
    + now apply dict_set_NoDup, dict_set_NoDup.
  - assert (Hnt : ~ In target (dict_keys proposers))
      by (eapply apart_spec; eauto using dict_get_In).
    assert (Hpt : proposer <> target) by congruence.
    assert (Hct : current <> target).
    { destruct (Hes target current (dict_get_In _ _ _ Ht)) as [Hc|Hc];
        apply couple_of_key in Hc; congruence. }
    split; [exact Hnd'|]. split; [|split; [split|exact Hes']].
    + intros q Iq. destruct (Hrest q Iq) as [Hq1 Hq2]. split; [exact Hq1|].
      simpl. destruct (string_dec q current) as [->|Hqc];
        [apply dict_get_remove_eq|].
      rewrite dict_get_remove_neq, !dict_get_set_neq; congruence.
    + now apply symmetric_replace.
    + now apply dict_remove_NoDup, dict_set_NoDup, dict_set_NoDup.
  - split; [exact Hnd'|]. split; [exact Hrest|]. now repeat split.
Qed.

End StepFacts.

(** ** Sweeps and loop heads *)

Section LoopFacts.

Variable proposers receivers : Side.

Lemma sweep_prefix_inv done : forall todo st0 st,
  apart proposers = true ->
  sweep_inv proposers (done ++ todo) st0 ->
  sweep proposers receivers done st0 = Ok st ->
  sweep_inv proposers todo st.
Proof.
  induction done as [|p done IH]; simpl; intros todo st0 st Ha Hinv H.
  - now injection H as <-.
  - apply bind_Ok in H. destruct H as [st1 [Hp H]].
    apply IH with (st0 := st1); [exact Ha| |exact H].
    eapply proposal_sweep_inv; eauto using propose_Ok.
Qed.

Lemma initial_sweep_inv :
  distinct_keys proposers = true ->
  sweep_inv proposers (dict_keys proposers) (initial_state proposers).
Proof.
  intros Hd. split; [now apply distinct_NoDup|]. split; [now split|].
  split; [split|]; simpl.
  - intros x y H. discriminate.
  - constructor.
  - intros k v [].
Qed.

Lemma loop_head_inv free_proposers st :
  distinct_keys proposers = true ->
  apart proposers = true ->
  loop_head proposers receivers free_proposers st ->
  sweep_inv proposers free_proposers st.
Proof.
  intros Hd Ha Hh.
  induction Hh as [|free_proposers st st' Hh IH Hne Hs].
  - now apply initial_sweep_inv.
  - assert (Hafter : sweep_inv proposers [] st').
    { apply sweep_prefix_inv with (done := free_proposers) (st0 := st);
        [exact Ha| |exact Hs]. now rewrite app_nil_r. }
    destruct IH as [Hnd [Hfree _]]. destruct Hafter as [_ [_ Hrest]].
    split; [now apply NoDup_filter|]. split; [|exact Hrest].
    intros p Ip. unfold free_participants in Ip. apply filter_In in Ip.
    destruct Ip as [Ip Hp]. split; [now apply Hfree|].
    now apply dict_mem_false, negb_true_iff.
Qed.

(** A property of states kept by every proposal step holds between all
    steps. *)
Lemma sweep_invariant (J : state -> Prop) :
  (forall p st st', J st -> proposal proposers receivers p st st' -> J st') ->
  forall l st st',
    J st -> sweep proposers receivers l st = Ok st' -> J st'.
Proof.
  intros Hstep. induction l as [|p l IH]; simpl; intros st st' HJ H.
  - now injection H as <-.
  - apply bind_Ok in H. destruct H as [st1 [Hp H]].
    apply IH with (st := st1); [|exact H].
    eapply Hstep; eauto using propose_Ok.
Qed.

Lemma between_steps_invariant (J : state -> Prop) :
  J (initial_state proposers) ->
  (forall p st st', J st -> proposal proposers receivers p st st' -> J st') ->
  forall st, between_steps proposers receivers st -> J st.
Proof.
  intros H0 Hstep.
  assert (Hheads : forall fl st, loop_head proposers receivers fl st -> J st).
  { intros fl st Hh. induction Hh as [|fl st st' Hh IH Hne Hs];
      [exact H0 | exact (sweep_invariant J Hstep _ _ _ IH Hs)]. }
  intros st [fl [st0 [done [todo [Hh [_ Hs]]]]]].
  exact (sweep_invariant J Hstep _ _ _ (Hheads _ _ Hh) Hs).
Qed.

Lemma loop_step fuel p rest st :
  loop proposers receivers (S fuel) (p :: rest) st =
  (st' <- sweep proposers receivers (p :: rest) st ;;
   loop proposers receivers fuel
     (free_participants (p :: rest) (engagements st')) st').
Proof. reflexivity. Qed.

(** The state returned by the loop is the state of a loop head with no
    free proposer left to iterate over. *)
Lemma loop_reaches_head fuel : forall free_proposers st st',
  loop_head proposers receivers free_proposers st ->
  loop proposers receivers fuel free_proposers st = Ok st' ->
  loop_head proposers receivers [] st'.
Proof.
  induction fuel as [|fuel IH]; intros [|p rest] st st' Hh H;
    try (rewrite loop_nil in H; injection H as <-; exact Hh);
    [discriminate|].
  rewrite loop_step in H. apply bind_Ok in H. destruct H as [st1 [Hs H]].
  eapply IH; [|exact H].
  apply head_next with (st := st); [exact Hh | discriminate | exact Hs].
Qed.

Lemma loop_head_between free_proposers st :
  loop_head proposers receivers free_proposers st ->
  between_steps proposers receivers st.
Proof.
  intros Hh. exists free_proposers, st, [], free_proposers.
  split; [exact Hh|]. split; reflexivity.
Qed.

(** More fuel does not change a result already reached. *)
Lemma loop_more_fuel fuel : forall extra free_proposers st st',
  loop proposers receivers fuel free_proposers st = Ok st' ->
  loop proposers receivers (fuel + extra) free_proposers st = Ok st'.
Proof.
  induction fuel as [|fuel IH]; intros extra [|p rest] st st' H;
    try (rewrite loop_nil in *; exact H); [discriminate|].
  rewrite loop_step in H. apply bind_Ok in H. destruct H as [st1 [Hs H]].
  change (S fuel + extra) with (S (fuel + extra)).
  rewrite loop_step, Hs. simpl bind. now apply IH.
Qed.

End LoopFacts.

Lemma proposal_keys_NoDup proposers receivers proposer st st' :
  proposal proposers receivers proposer st st' ->
  NoDup (dict_keys (engagements st)) ->
  NoDup (dict_keys (engagements st')).
Proof.
  intros Hstep Hk. destruct Hstep; simpl; try exact Hk.
  - now apply dict_set_NoDup, dict_set_NoDup.
  - now apply dict_remove_NoDup, dict_set_NoDup, dict_set_NoDup.
Qed.

(** C9. Between any two proposal steps of the loop no participant is a
    key of the engagement dict twice, and, for proposers with distinct
    names none of whom is named in a proposer's preference list (the two
    sides are disjoint), the dict is symmetric: [engagements[x] = y]
    implies [engagements[y] = x].  The two updates that reach these
    states, [symmetric_engage] and [symmetric_replace], each keep the
    invariant. *)
Theorem engagements_symmetric_between_steps proposers receivers st :
  between_steps proposers receivers st ->
  NoDup (dict_keys (engagements st)) /\
  (distinct_keys proposers = true -> apart proposers = true ->
   symmetric (engagements st)).
Proof.
  intros Hb. split.
  - revert st Hb.
    apply (between_steps_invariant proposers receivers
             (fun st => NoDup (dict_keys (engagements st)))).
    + constructor.
    + intros p st st' HJ Hstep. eapply proposal_keys_NoDup; eauto.
  - intros Hd Ha. destruct Hb as [fl [st0 [done [todo [Hh [Hfl Hs]]]]]].
    apply loop_head_inv in Hh; [|exact Hd|exact Ha].
    rewrite Hfl in Hh.
    apply (sweep_prefix_inv _ _ _ _ _ _ Ha Hh) in Hs.
    now destruct Hs as [_ [_ [[Hsym _] _]]].
Qed.

Lemma engagements_symmetric_between_steps_witness :
  exists st,
    sweep sample_proposers sample_receivers ["abc"; "asd"]
      (initial_state sample_proposers) = Ok st /\
    engagements st = [("123", "asd"); ("asd", "123")] /\
    NoDup (dict_keys (engagements st)) /\
    symmetric (engagements st).
Proof.
  eexists. split; [vm_compute; reflexivity|]. split; [reflexivity|].
  destruct (engagements_symmetric_between_steps
              sample_proposers sample_receivers
              (mkState [("abc", [("123", "")]); ("asd", [("123", "")]);
                        ("pqq", [])]
                       [("123", "asd"); ("asd", "123")]
                       [("asd", "abc", ["pqq"; "asd"; "abc"])]))
    as [Hk Hsym].
  - exists (dict_keys sample_proposers), (initial_state sample_proposers),
      ["abc"; "asd"], ["pqq"].
    split; [apply head_first|]. split; reflexivity.
  - exact (conj Hk (Hsym eq_refl eq_refl)).
Defined.

(** ** From the engine to the returned list *)

Lemma engine_final fuel sA A sB B st :
  proposal_engine fuel [(sA, A); (sB, B)] = Ok st ->
  all_preferences [(sA, A); (sB, B)] = Ok true /\ loop_head A B [] st.
Proof.
  intros H. destruct (String.eqb_spec sA sB) as [->|Hne].
  - unfold proposal_engine in H.
    rewrite all_preferences_same_label in H. discriminate.
  - rewrite proposal_engine_two_sides in H by exact Hne.
    rewrite all_preferences_two_sides by exact Hne.
    destruct (_ && _); [|discriminate]. split; [reflexivity|].
    eapply loop_reaches_head; [apply head_first | exact H].
Qed.

Lemma stable_matching_Ok O fuel participants l :
  stable_matching O fuel participants = Ok l ->
  exists st,
    proposal_engine fuel participants = Ok st /\
    l = set_iter O (compose (engagements st)).
Proof.
  unfold stable_matching. intros H. apply bind_Ok in H.
  destruct H as [st [He H]]. exists st. split; [exact He | congruence].
Qed.

Lemma stable_matching_of_engine O fuel participants st :
  proposal_engine fuel participants = Ok st ->
  stable_matching O fuel participants =
  Ok (set_iter O (compose (engagements st))).
Proof.
  unfold stable_matching. now intros ->.
Qed.

Lemma engine_more_fuel fuel extra participants st :
  proposal_engine fuel participants = Ok st ->
  proposal_engine (fuel + extra) participants = Ok st.
Proof.
  unfold proposal_engine.
  destruct (all_preferences participants) as [[|]| |]; simpl;
    try discriminate.
  destruct (dict_keys participants) as [|proposing rest]; [discriminate|].
  destruct (subscript participants proposing); simpl; try discriminate.
  destruct (subscript_opt participants _); simpl; try discriminate.
  apply loop_more_fuel.
Qed.

Lemma set_iter_In O s x : In x (set_iter O s) <-> In x s.
Proof.
  split; apply Permutation_in;
    [apply set_iter_perm | apply Permutation_sym, set_iter_perm].
Qed.

(** ** Result composer *)

Lemma pair_eqb_eq x y : pair_eqb x y = true <-> x = y.
Proof.
  destruct x as [a b], y as [c d]. unfold pair_eqb. simpl.
  rewrite andb_true_iff, !String.eqb_eq. split.
  - intros [-> ->]. reflexivity.
  - intros [= -> ->]. now split.
Qed.

Lemma set_mem_In x s : set_mem x s = true <-> In x s.
Proof.
  unfold set_mem. rewrite existsb_exists. split.
  - intros [y [I E]]. apply pair_eqb_eq in E. now subst.
  - intros I. exists x. split; [exact I | now apply pair_eqb_eq].
Qed.

Lemma set_mem_false x s : set_mem x s = false <-> ~ In x s.
Proof.
  rewrite <- set_mem_In. destruct (set_mem x s); split; congruence.
Qed.

(** A step of the composing loop leaves the set alone or appends a pair
    that is in the set in neither orientation. *)
Lemma add_couple_cases s ab :
  add_couple s ab = s \/
  (add_couple s ab = s ++ [ab] /\ ~ In ab s /\ ~ In (snd ab, fst ab) s).
Proof.
  unfold add_couple, set_add.
  destruct (set_mem (snd ab, fst ab) s) eqn:E1; [now left|].
  destruct (set_mem ab s) eqn:E2; [now left|].
  right. split; [reflexivity|]. split; now apply set_mem_false.
Qed.

Lemma fold_add_couple_In items : forall s ab,
  In ab (fold_left add_couple items s) -> In ab s \/ In ab items.
Proof.
  induction items as [|cd items IH]; simpl; intros s ab H; [now left|].
  apply IH in H. destruct H as [H|H]; [|right; now right].
  destruct (add_couple_cases s cd) as [E|[E _]]; rewrite E in H;
    [now left|].
  apply in_app_or in H. destruct H as [H|[<-|[]]]; [now left|right; now left].
Qed.

Lemma fold_add_couple_NoDup items : forall s,
  NoDup s -> NoDup (fold_left add_couple items s).
Proof.
  induction items as [|cd items IH]; simpl; intros s H; [exact H|].
  apply IH. destruct (add_couple_cases s cd) as [E|[E [Hn _]]]; rewrite E;
    [exact H | now apply NoDup_snoc].
Qed.

Lemma fold_add_couple_one_way items : forall s,
  (forall a b, In (a, b) s -> a <> b -> ~ In (b, a) s) ->
  forall a b, In (a, b) (fold_left add_couple items s) -> a <> b ->
  ~ In (b, a) (fold_left add_couple items s).
Proof.
  induction items as [|cd items IH]; simpl; intros s H; [exact H|].
  apply IH. destruct (add_couple_cases s cd) as [E|[E [Hn Hr]]]; rewrite E;
    [exact H|].
  intros a b I Hab I'.
  apply in_app_or in I. apply in_app_or in I'.
  destruct I as [I|[E1|[]]]; destruct I' as [I'|[E2|[]]]; subst.
  - exact (H a b I Hab I').
  - now apply Hr.
  - now apply Hr.
  - injection E2 as E2 _. now apply Hab.
Qed.

Lemma compose_In engaged ab : In ab (compose engaged) -> In ab engaged.
Proof.
  intros H. apply fold_add_couple_In in H. now destruct H as [[]|H].
Qed.

Lemma fold_add_couple_grows items : forall s ab,
  In ab s -> In ab (fold_left add_couple items s).
Proof.
  induction items as [|cd items IH]; simpl; intros s ab I; [exact I|].
  apply IH. destruct (add_couple_cases s cd) as [E|[E _]]; rewrite E;
    [exact I | apply in_or_app; now left].
Qed.

Lemma fold_add_couple_covers items : forall s a b,
  In (a, b) items ->
  In (a, b) (fold_left add_couple items s) \/
  In (b, a) (fold_left add_couple items s).
Proof.
  induction items as [|cd items IH]; simpl; intros s a b I; [destruct I|].
  destruct I as [->|I]; [|now apply IH].
  unfold add_couple at 2 4, set_add. simpl.
  destruct (set_mem (b, a) s) eqn:E1.
  - right. apply fold_add_couple_grows. now apply set_mem_In.
  - left. apply fold_add_couple_grows.
    destruct (set_mem (a, b) s) eqn:E2;
      [now apply set_mem_In | apply in_or_app; right; now left].
Qed.

Lemma compose_NoDup engaged : NoDup (compose engaged).
Proof. apply fold_add_couple_NoDup. constructor. Qed.

Lemma compose_one_way engaged a b :
  a <> b -> In (a, b) (compose engaged) -> ~ In (b, a) (compose engaged).
Proof.
  intros Hab I. apply fold_add_couple_one_way; [intros ? ? []|exact I|exact Hab].
Qed.

(** In the composed set of a symmetric engagement dict whose entries join
    two different people, each participant is in one pair at most. *)
Lemma compose_single engaged :
  engagement_ok engaged ->
  (forall a b, In (a, b) engaged -> a <> b) ->
  forall x ab cd,
    In ab (compose engaged) -> In cd (compose engaged) ->
    occurs x ab -> occurs x cd -> ab = cd.
Proof.
  intros [Hs Hk] Hne x [a b] [c d] Iab Icd Oab Ocd.
  assert (Hone : forall a b,
            In (a, b) (compose engaged) -> ~ In (b, a) (compose engaged)).
  { intros u v I. apply compose_one_way; [|exact I].
    now apply Hne, compose_In. }
  assert (Gab : dict_get a engaged = Some b)
    by now apply In_dict_get, compose_In.
  assert (Gcd : dict_get c engaged = Some d)
    by now apply In_dict_get, compose_In.
  unfold occurs in *. simpl in *.
  destruct Oab as [ <- | <- ]; destruct Ocd as [ -> | -> ].
  - congruence.
  - apply Hs in Gcd. assert (b = c) by congruence. subst b.
    exfalso. exact (Hone _ _ Iab Icd).
  - apply Hs in Gab. assert (a = d) by congruence. subst d.
    exfalso. exact (Hone _ _ Iab Icd).
  - apply Hs in Gab. apply Hs in Gcd. congruence.
Qed.

(** ** The returned list *)

Lemma final_sweep_inv fuel sA A sB B st :
  distinct_keys A = true ->
  apart A = true ->
  proposal_engine fuel [(sA, A); (sB, B)] = Ok st ->
  sweep_inv A [] st.
Proof.
  intros Hd Ha H. apply engine_final in H. destruct H as [_ Hh].
  exact (loop_head_inv A B [] st Hd Ha Hh).
Qed.

Lemma sided_entries_differ proposers engaged :
  apart proposers = true ->
  entries_sided proposers engaged ->
  forall a b, In (a, b) engaged -> a <> b.
Proof.
  intros Ha Hes a b I E. subst b.
  destruct (Hes a a I) as [Hc|Hc];
    assert (Hk := couple_of_key _ _ _ Hc);
    destruct Hc as [preferences [Ip It]];
    exact (apart_spec _ _ _ _ Ha Ip It Hk).
Qed.

(** C7. The returned list holds each couple exactly once.  Every entry
    [(a, b)] of the final engagement dict is listed, as [(a, b)] or as
    [(b, a)], and nothing else is; no pair is listed twice, and never
    both [(a, b)] and [(b, a)].  For proposers with distinct names none of
    whom is named in a proposer's preference list (the sides are
    disjoint), the two members of a pair differ and no participant is in
    two different pairs. *)
Theorem couples_listed_once O fuel sA A sB B l :
  stable_matching O fuel [(sA, A); (sB, B)] = Ok l ->
  (exists st,
     proposal_engine fuel [(sA, A); (sB, B)] = Ok st /\
     (forall a b,
        In (a, b) (engagements st) -> In (a, b) l \/ In (b, a) l) /\
     (forall a b, In (a, b) l -> In (a, b) (engagements st))) /\
  NoDup l /\
  (forall a b, a <> b -> In (a, b) l -> ~ In (b, a) l) /\
  (distinct_keys A = true -> apart A = true ->
   (forall a b, In (a, b) l -> a <> b) /\
   (forall x ab cd,
      In ab l -> In cd l -> occurs x ab -> occurs x cd -> ab = cd)).
Proof.
  intros H. apply stable_matching_Ok in H. destruct H as [st [He ->]].
  split; [|split; [|split]].
  - exists st. split; [exact He|]. split.
    + intros a b I.
      destruct (fold_add_couple_covers (engagements st) [] a b I) as [H|H];
        [left | right]; now apply set_iter_In.
    + intros a b I. now apply compose_In, (set_iter_In O).
  - eapply Permutation_NoDup;
      [apply Permutation_sym, set_iter_perm | apply compose_NoDup].
  - intros a b Hab I I'. apply set_iter_In in I, I'.
    exact (compose_one_way _ a b Hab I I').
  - intros Hd Ha.
    destruct (final_sweep_inv _ _ _ _ _ _ Hd Ha He) as [_ [_ [Hok Hes]]].
    assert (Hne := sided_entries_differ _ _ Ha Hes).
    split.
    + intros a b I. now apply Hne, compose_In, (set_iter_In O).
    + intros x ab cd Iab Icd. apply set_iter_In in Iab, Icd.
      now apply (compose_single _ Hok Hne).
Qed.

Lemma couples_listed_once_witness :
  let l := [("123", "pqq"); ("abc", "451"); ("asd", "912")] in
  (exists st,
     proposal_engine 2 sample_participants = Ok st /\
     (forall a b,
        In (a, b) (engagements st) -> In (a, b) l \/ In (b, a) l) /\
     (forall a b, In (a, b) l -> In (a, b) (engagements st))) /\
  NoDup l /\
  (forall a b, a <> b -> In (a, b) l -> ~ In (b, a) l) /\
  (forall a b, In (a, b) l -> a <> b) /\
  (forall x ab cd,
     In ab l -> In cd l -> occurs x ab -> occurs x cd -> ab = cd).
Proof.
  destruct (couples_listed_once insertion_order 2
              "side_A" sample_proposers "side_B" sample_receivers _ eq_refl)
    as [Hall [Hnd [Hone Hdisjoint]]].
  destruct (Hdisjoint eq_refl eq_refl) as [Hne Hsingle].
  exact (conj Hall (conj Hnd (conj Hone (conj Hne Hsingle)))).
Defined.

Lemma known_targets_spec proposers receivers name preferences t :
  known_targets proposers receivers = true ->
  In (name, preferences) proposers ->
  In t preferences ->
  In t (dict_keys receivers).
Proof.
  unfold known_targets. rewrite forallb_forall. intros Hk I It.
  specialize (Hk _ I). simpl in Hk. rewrite forallb_forall in Hk.
  now apply member_In, Hk.
Qed.









(** C8. On the sample data the three couples 123-pqq, 451-abc and 912-asd
    are returned, whatever the order of the list, from two sweeps on. *)
Theorem sample_couples O k :
  exists l,
    stable_matching O (2 + k) sample_participants = Ok l /\
    same_couples l [("123", "pqq"); ("451", "abc"); ("912", "asd")].
Proof.
  assert (E : exists st,
             proposal_engine 2 sample_participants = Ok st /\
             compose (engagements st) =
             [("123", "pqq"); ("abc", "451"); ("asd", "912")]).
  { eexists. split; [vm_compute; reflexivity | reflexivity]. }
  destruct E as [st [E Ec]].
  apply engine_more_fuel with (extra := k) in E.
  exists (set_iter O (compose (engagements st))).
  split; [now apply stable_matching_of_engine|].
  rewrite Ec. eexists. split; [apply set_iter_perm|].
  constructor; [now left|]. constructor; [now right|].
  constructor; [now right|]. constructor.
Qed.

(** ** Calls of [preferred] *)

Lemma preferred_None a b preferences :
  preferred a b preferences = None <-> ~ In a preferences /\ ~ In b preferences.
Proof.
  induction preferences as [|x rest IH]; simpl; [tauto|].
  name_cases x a.
  - split; [discriminate | intros [H _]; exfalso; apply H; now left].
  - name_cases x b.
    + split; [discriminate | intros [_ H]; exfalso; apply H; now left].
    + rewrite IH. split; intros [Ha Hb]; split; intros H; intuition congruence.
Qed.

Lemma preferred_answers a b preferences :
  In a preferences -> exists answer, preferred a b preferences = Some answer.
Proof.
  intros I. destruct (preferred a b preferences) as [answer|] eqn:E;
    [now exists answer|].
  apply preferred_None in E. tauto.
Qed.

Lemma dict_get_key {V} k (v : V) d : dict_get k d = Some v -> In k (dict_keys d).
Proof.
  intros H. apply dict_get_In in H. change k with (fst (k, v)).
  now apply in_map.
Qed.

Section CallFacts.

Variable proposers receivers : Side.

Hypothesis receivers_rank_all :
  forall name preferences o,
    In (name, preferences) receivers -> In o (dict_keys proposers) ->
    In o preferences.

Lemma call_in_loop_ok proposer preferences target current target_preferences :
  dict_get proposer proposers = Some preferences ->
  dict_get target receivers = Some target_preferences ->
  call_ok proposers receivers (proposer, current, target_preferences).
Proof.
  intros Hp Hr.
  assert (Hk : In proposer (dict_keys proposers)) by (eapply dict_get_key; eauto).
  assert (Hall : forall p, In p (dict_keys proposers) -> In p target_preferences)
    by (intros p; eapply receivers_rank_all; eauto using dict_get_In).
  split; [exact Hk|]. split; [now exists target|]. split; [exact Hall|].
  now apply preferred_answers, Hall.
Qed.

Lemma proposal_calls_ok proposer st st' :
  proposal proposers receivers proposer st st' ->
  Forall (call_ok proposers receivers) (calls st) ->
  Forall (call_ok proposers receivers) (calls st').
Proof.
  intros Hstep Hcalls.
  destruct Hstep as [|preferences target h Hp It Ht
                     |preferences target h current tp Hp It Ht Hr Hpref
                     |preferences target h current tp Hp It Ht Hr];
    simpl; try exact Hcalls;
    (apply Forall_app; split; [exact Hcalls|]);
    (constructor; [|constructor]);
    eapply call_in_loop_ok; eauto.
Qed.

End CallFacts.

Lemma incumbent_is_proposer proposers proposer preferences target current
  engaged :
  apart proposers = true ->
  entries_sided proposers engaged ->
  dict_get proposer proposers = Some preferences ->
  In target preferences ->
  dict_get target engaged = Some current ->
  In proposer (dict_keys proposers) /\ In current (dict_keys proposers).
Proof.
  intros Ha Hes Hp It Hc. split; [eapply dict_get_key; eauto|].
  destruct (Hes target current (dict_get_In _ _ _ Hc)) as [H|H];
    apply (couple_of_key proposers) in H; [|exact H].
  exfalso. eapply apart_spec; eauto using dict_get_In.
Qed.

Lemma proposal_compares_proposers proposers receivers proposer st st' :
  apart proposers = true ->
  proposal proposers receivers proposer st st' ->
  entries_sided proposers (engagements st) /\
    Forall (compares_proposers proposers) (calls st) ->
  entries_sided proposers (engagements st') /\
    Forall (compares_proposers proposers) (calls st').
Proof.
  intros Ha Hstep [Hes Hcalls].
  split; [eapply proposal_entries_sided; eauto|].
  destruct Hstep as [|preferences target h Hp It Ht
                     |preferences target h current tp Hp It Ht Hr Hpref
                     |preferences target h current tp Hp It Ht Hr];
    simpl; try exact Hcalls;
    (apply Forall_app; split; [exact Hcalls|]);
    (constructor; [|constructor]);
    eapply incumbent_is_proposer; eauto.
Qed.

(** C10. [preferred] falls off its loop (returns [None]) exactly when
    neither name is on the list.  After a passed validation of two sides,
    every call of [preferred] made by the proposal loop up to any point
    between two steps has a proposer as first argument and the list of a
    receiver, on which every proposer occurs, as third, and the call
    answers [True] or [False].  When moreover no proposer is named in a
    proposer's list (the sides are disjoint), the second argument is a
    proposer too. *)
Theorem preferred_answers_in_loop sA A sB B st :
  all_preferences [(sA, A); (sB, B)] = Ok true ->
  between_steps A B st ->
  (forall a b preferences,
     preferred a b preferences = None <->
     ~ In a preferences /\ ~ In b preferences) /\
  Forall (call_ok A B) (calls st) /\
  (apart A = true -> Forall (compares_proposers A) (calls st)).
Proof.
  intros Hv Hb. split; [exact preferred_None|].
  apply validated_two_sides in Hv. destruct Hv as [_ [_ HB]].
  split.
  - revert st Hb.
    apply (between_steps_invariant A B
             (fun st => Forall (call_ok A B) (calls st))).
    + constructor.
    + intros p st st' HJ Hstep. eapply proposal_calls_ok; eauto.
  - intros Ha.
    apply (between_steps_invariant A B
             (fun st => entries_sided A (engagements st) /\
                        Forall (compares_proposers A) (calls st)));
      [split; [intros k v [] | constructor] | | exact Hb].
    intros p st1 st2 HJ Hstep. eapply proposal_compares_proposers; eauto.
Qed.

Lemma preferred_answers_in_loop_witness :
  exists st,
    proposal_engine 2 sample_participants = Ok st /\
    calls st = [("asd", "abc", ["pqq"; "asd"; "abc"]);
                ("pqq", "asd", ["pqq"; "asd"; "abc"])] /\
    (forall a b preferences,
       preferred a b preferences = None <->
       ~ In a preferences /\ ~ In b preferences) /\
    Forall (call_ok sample_proposers sample_receivers) (calls st) /\
    Forall (compares_proposers sample_proposers) (calls st).
Proof.
  eexists. split; [vm_compute; reflexivity|]. split; [reflexivity|].
  destruct (preferred_answers_in_loop
              "side_A" sample_proposers "side_B" sample_receivers
              _ eq_refl
              (loop_head_between _ _ [] _
                 (proj2 (engine_final 2 "side_A" sample_proposers
                           "side_B" sample_receivers _ eq_refl))))
    as [Hnone [Hcalls Hboth]].
  exact (conj Hnone (conj Hcalls (Hboth eq_refl))).
Defined.

(** ** Where the loop departs from deferred acceptance *)

(** C1. On [displaced_participants], three proposers and three receivers
    with complete lists, the validation passes and the run returns two
    couples only, x-b and y-c: [a], displaced in the second sweep, is no
    longer in [free_proposers] and never proposes again.  [a] and [z] are
    both left unmatched, so they block the returned matching. *)
Theorem displaced_run_has_blocking_pair O k :
  all_preferences displaced_participants = Ok true /\
  exists l,
    stable_matching O (2 + k) displaced_participants = Ok l /\
    Permutation l [("x", "b"); ("y", "c")] /\
    blocking_pair displaced_proposers displaced_receivers l "a" "z".
Proof.
  split; [reflexivity|].
  assert (E : exists st,
             proposal_engine 2 displaced_participants = Ok st /\
             compose (engagements st) = [("x", "b"); ("y", "c")]).
  { eexists. split; [vm_compute; reflexivity | reflexivity]. }
  destruct E as [st [E Ec]].
  apply engine_more_fuel with (extra := k) in E.
  exists (set_iter O (compose (engagements st))).
  split; [now apply stable_matching_of_engine|].
  rewrite Ec. split; [apply set_iter_perm|].
  assert (Hno : forall u v,
            In (u, v) (set_iter O [("x", "b"); ("y", "c")]) ->
            u <> "a" /\ u <> "z" /\ v <> "a" /\ v <> "z").
  { intros u v I. apply set_iter_In in I.
    destruct I as [[= <- <-]|[[= <- <-]|[]]]; repeat split; discriminate. }
  unfold blocking_pair, matched.
  split; [simpl; tauto|]. split; [simpl; tauto|].
  split; [|split].
  - intros [I|I]; apply Hno in I; tauto.
  - intros r' [I|I]; apply Hno in I; tauto.
  - intros p' [I|I]; apply Hno in I; tauto.
Qed.

(** C2. On [surplus_participants], two proposers and one receiver with
    complete lists, the validation passes and the loop never ends: after
    the first sweep [b] is free with nobody left on its list, every later
    sweep leaves the state as it is, and no amount of fuel yields a
    result. *)
Theorem surplus_run_never_returns O fuel :
  all_preferences surplus_participants = Ok true /\
  sweep surplus_proposers surplus_receivers ["b"] surplus_stuck
    = Ok surplus_stuck /\
  free_participants ["b"] (engagements surplus_stuck) = ["b"] /\
  stable_matching O fuel surplus_participants = OutOfFuel.
Proof.
  split; [reflexivity|]. split; [reflexivity|]. split; [reflexivity|].
  assert (Hstuck : forall n,
            loop surplus_proposers surplus_receivers n ["b"] surplus_stuck
            = OutOfFuel).
  { induction n as [|n IH]; [reflexivity|].
    rewrite loop_step.
    change (sweep surplus_proposers surplus_receivers ["b"] surplus_stuck)
      with (Ok surplus_stuck).
    exact IH. }
  unfold stable_matching, surplus_participants.
  rewrite proposal_engine_two_sides by discriminate.
  change (forallb _ surplus_proposers && forallb _ surplus_receivers)
    with true.
  cbv iota. destruct fuel as [|n]; [reflexivity|].
  change (dict_keys surplus_proposers) with ["a"; "b"].
  rewrite loop_step.
  change (sweep surplus_proposers surplus_receivers ["a"; "b"]
            (initial_state surplus_proposers))
    with (Ok surplus_stuck).
  simpl bind.
  change (free_participants ["a"; "b"] (engagements surplus_stuck))
    with ["b"].
  now rewrite Hstuck.
Qed.

(** C3. On [late_participants], four against four with complete lists,
    the third sweep starts with [free_proposers = ["d"]] although the
    proposers absent from the engagement dict are [a] and [d]: [a] was
    displaced during the second sweep, and [free_proposers] is filtered
    out of the previous [free_proposers], where [a] no longer was.  The
    run ends with [a] free, its only proposal ever the one to [x]. *)
Theorem displaced_proposer_not_swept k :
  all_preferences late_participants = Ok true /\
  (exists free_proposers st,
     loop_head late_proposers late_receivers free_proposers st /\
     free_proposers = ["d"] /\
     free_participants (dict_keys late_proposers) (engagements st)
       = ["a"; "d"]) /\
  (exists st,
     proposal_engine (3 + k) late_participants = Ok st /\
     dict_get "a" (engagements st) = None /\
     dict_get "a" (proposal_history st) = Some [("x", "")]).
Proof.
  split; [reflexivity|]. split.
  - do 2 eexists. split.
    + eapply head_next.
      * eapply head_next.
        -- apply head_first.
        -- discriminate.
        -- vm_compute. reflexivity.
      * vm_compute. discriminate.
      * vm_compute. reflexivity.
    + split; reflexivity.
  - assert (E : exists st,
               proposal_engine 3 late_participants = Ok st /\
               dict_get "a" (engagements st) = None /\
               dict_get "a" (proposal_history st) = Some [("x", "")]).
    { eexists. split; [vm_compute; reflexivity | split; reflexivity]. }
    destruct E as [st [E Es]].
    apply engine_more_fuel with (extra := k) in E. now exists st.
Qed.

(** * Further properties of the module's functions *)

(** ** [other_side] *)

(** X1. [other_side] returns the first label of [all_sides] that differs
    from [current_side], and falls off its loop ([None]) exactly when
    there is no such label, the empty list included. *)
Theorem other_side_first_different current_side all_sides :
  (other_side current_side all_sides = None <->
   forall s, In s all_sides -> s = current_side) /\
  (forall s,
     other_side current_side all_sides = Some s <->
     exists before after,
       all_sides = before ++ s :: after /\
       s <> current_side /\
       forall x, In x before -> x = current_side).
Proof.
  induction all_sides as [|x l [IHn IHs]]; simpl.
  - split; [split; [intros _ s [] | reflexivity]|].
    intros s. split; [discriminate|].
    intros [[|y before] [after [E _]]]; discriminate.
  - destruct (String.eqb_spec x current_side) as [->|Hne]; simpl.
    + split.
      * rewrite IHn. split.
        -- intros H s [<-|I]; [reflexivity | now apply H].
        -- intros H s I. apply H. now right.
      * intros s. rewrite IHs. split.
        -- intros [before [after [-> [Hs Hb]]]].
           exists (current_side :: before), after.
           split; [reflexivity|]. split; [exact Hs|].
           intros y [<-|I]; [reflexivity | now apply Hb].
        -- intros [[|y before] [after [E [Hs Hb]]]]; simpl in E.
           ++ injection E as E _. congruence.
           ++ injection E as _ E. exists before, after.
              split; [exact E|]. split; [exact Hs|].
              intros z I. apply Hb. now right.
    + split.
      * split; [discriminate|]. intros H. exfalso. apply Hne, H. now left.
      * intros s. split.
        -- intros [= <-]. exists [], l. split; [reflexivity|].
           split; [exact Hne | intros y []].
        -- intros [[|y before] [after [E [Hs Hb]]]]; simpl in E.
           ++ injection E as E _. now subst.
           ++ injection E as E _. exfalso. apply Hne.
              rewrite E. apply Hb. now left.
Qed.

(** ** [preferred] *)

Lemma preferred_true_split a b preferences :
  preferred a b preferences = Some true <->
  exists before after,
    preferences = before ++ a :: after /\ ~ In a before /\ ~ In b before.
Proof.
  induction preferences as [|x l IH]; simpl.
  - split; [discriminate|].
    intros [[|y before] [after [E _]]]; discriminate.
  - destruct (String.eqb_spec x a) as [->|Hxa].
    + split; [|reflexivity]. intros _. exists [], l. now split.
    + destruct (String.eqb_spec x b) as [->|Hxb].
      * split; [discriminate|].
        intros [[|y before] [after [E [_ Hb]]]]; simpl in E;
          injection E as E _; [congruence|].
        exfalso. apply Hb. now left.
      * rewrite IH. split.
        -- intros [before [after [-> [Ha Hb]]]].
           exists (x :: before), after. split; [reflexivity|].
           split; intros [E|I]; congruence || tauto.
        -- intros [[|y before] [after [E [Ha Hb]]]]; simpl in E;
             injection E as E1 E2; [congruence|].
           exists before, after. split; [exact E2|].
           split; intros I; [apply Ha | apply Hb]; now right.
Qed.

Lemma preferred_false_split a b preferences :
  preferred a b preferences = Some false <->
  a <> b /\
  exists before after,
    preferences = before ++ b :: after /\ ~ In a before /\ ~ In b before.
Proof.
  induction preferences as [|x l IH]; simpl.
  - split; [discriminate|].
    intros [_ [[|y before] [after [E _]]]]; discriminate.
  - destruct (String.eqb_spec x a) as [->|Hxa].
    + split; [discriminate|].
      intros [Hab [[|y before] [after [E [Ha _]]]]]; simpl in E;
        injection E as E _; [congruence|].
      exfalso. apply Ha. now left.
    + destruct (String.eqb_spec x b) as [->|Hxb].
      * split; [|reflexivity]. intros _. split; [congruence|].
        exists [], l. now split.
      * rewrite IH. split.
        -- intros [Hab [before [after [-> [Ha Hb]]]]]. split; [exact Hab|].
           exists (x :: before), after. split; [reflexivity|].
           split; intros [E|I]; congruence || tauto.
        -- intros [Hab [[|y before] [after [E [Ha Hb]]]]]; simpl in E;
             injection E as E1 E2; [congruence|].
           split; [exact Hab|]. exists before, after. split; [exact E2|].
           split; intros I; [apply Ha | apply Hb]; now right.
Qed.

(** X2. [preferred(a, b, preferences)] is [True] exactly when [a] is on
    the list with neither [a] nor [b] before its first occurrence, [a = b]
    included; it is [False] exactly when [b] is a different name on the
    list with neither of the two before its first occurrence. *)
Theorem preferred_compares_first_occurrences a b preferences :
  (preferred a b preferences = Some true <->
   exists before after,
     preferences = before ++ a :: after /\ ~ In a before /\ ~ In b before) /\
  (preferred a b preferences = Some false <->
   a <> b /\
   exists before after,
     preferences = before ++ b :: after /\ ~ In a before /\ ~ In b before).
Proof.
  split; [apply preferred_true_split | apply preferred_false_split].
Qed.

Lemma preferred_trans a b c preferences :
  preferred a b preferences = Some true ->
  preferred b c preferences = Some true ->
  preferred a c preferences = Some true.
Proof.
  induction preferences as [|x l IH]; simpl; [discriminate|].
  destruct (String.eqb_spec x a) as [->|Hxa]; [reflexivity|].
  destruct (String.eqb_spec x b) as [->|Hxb]; [discriminate|].
  destruct (String.eqb_spec x c) as [->|Hxc]; [discriminate|].
  exact IH.
Qed.

Lemma preferred_swap a b preferences :
  a <> b ->
  preferred a b preferences = Some true ->
  preferred b a preferences = Some false.
Proof.
  intros Hab. induction preferences as [|x l IH]; simpl; [discriminate|].
  destruct (String.eqb_spec x a) as [->|Hxa].
  - intros _. destruct (String.eqb_spec a b); [congruence | reflexivity].
  - destruct (String.eqb_spec x b) as [->|Hxb]; [discriminate | exact IH].
Qed.

(** X3. On the names of one list [preferred] is a strict total order:
    of two different listed names exactly one is preferred to the other,
    and being preferred is transitive. *)
Theorem preferred_strict_total_order preferences :
  (forall a b, a <> b ->
     preferred a b preferences = Some true ->
     preferred b a preferences = Some false) /\
  (forall a b, In a preferences -> In b preferences ->
     preferred a b preferences = Some true \/
     preferred b a preferences = Some true) /\
  (forall a b c,
     preferred a b preferences = Some true ->
     preferred b c preferences = Some true ->
     preferred a c preferences = Some true).
Proof.
  split; [intros a b; apply preferred_swap|].
  split; [|intros a b c; apply preferred_trans].
  intros a b Ia Ib. induction preferences as [|x l IH]; [destruct Ia|].
  simpl. destruct (String.eqb_spec x a) as [->|Hxa]; [now left|].
  destruct (String.eqb_spec x b) as [->|Hxb]; [now right|].
  destruct Ia as [E|Ia]; [congruence|]. destruct Ib as [E|Ib]; [congruence|].
  now apply IH.
Qed.

(** ** The number of sides *)

Lemma all_preferences_items_Raise participants sides items e :
  all_preferences_items participants sides items = Raise e -> e = KeyError.
Proof.
  induction items as [|[side people] rest IH]; simpl; [discriminate|].
  intros H. apply bind_Raise in H. destruct H as [H|[other [_ H]]].
  - now apply subscript_opt_Raise in H.
  - destruct (forallb _ people); [now apply IH | discriminate].
Qed.

Lemma proposal_engine_Raise fuel participants e :
  proposal_engine fuel participants = Raise e ->
  (e = KeyError /\ participants <> []) \/
  (e = MissingPreferences /\ all_preferences participants = Ok false) \/
  (e = IndexError /\ participants = []).
Proof.
  unfold proposal_engine. intros H.
  apply bind_Raise in H. destruct H as [H|[complete [Hc H]]].
  - left. split; [now apply all_preferences_items_Raise in H|].
    intros ->. discriminate.
  - destruct complete; simpl in H.
    + destruct participants as [|[proposing proposers] rest]; simpl in H;
        [right; right; split; congruence|].
      left. split; [|discriminate].
      apply bind_Raise in H. destruct H as [H|[P [_ H]]];
        [now apply subscript_Raise in H|].
      apply bind_Raise in H. destruct H as [H|[R [_ H]]];
        [now apply subscript_opt_Raise in H | now apply loop_Raise in H].
    + right; left. split; congruence.
Qed.

(** X4. [stable_matching] raises [IndexError] (from [sides[0]]) exactly
    when it is given no side at all, and [KeyError] (from
    [participants[None]] in the validation) whenever it is given a single
    side. *)
Theorem too_few_sides_raise O fuel :
  (forall participants,
     stable_matching O fuel participants = Raise IndexError <->
     participants = []) /\
  (forall side people,
     stable_matching O fuel [(side, people)] = Raise KeyError).
Proof.
  split.
  - intros participants. split; [|intros ->; reflexivity].
    intros H. apply stable_matching_Raise, proposal_engine_Raise in H.
    destruct H as [[H _]|[[H _]|[_ H]]]; [discriminate | discriminate | exact H].
  - intros side people. unfold stable_matching, proposal_engine, all_preferences.
    simpl. now rewrite String.eqb_refl.
Qed.

Lemma further_sides_validated sA A tail sides rest :
  Forall (fun sC => fst sC <> sA) rest ->
  all_preferences_items ((sA, A) :: tail) (sA :: sides) rest =
  Ok (forallb
        (fun sC => forallb (fun np => ranks_all A (snd np)) (snd sC)) rest).
Proof.
  induction rest as [|[s C] rest IH]; simpl; intros HF; [reflexivity|].
  inversion HF as [|? ? Hs HF']; subst. simpl in Hs.
  assert (E : (sA =? s) = false) by (apply String.eqb_neq; congruence).
  rewrite E. simpl. unfold subscript. simpl. rewrite String.eqb_refl. simpl.
  destruct (forallb (fun np => ranks_all A (snd np)) C); simpl;
    [now apply IH | reflexivity].
Qed.

(** X5. Sides supplied after the second take no part in the matching:
    they are only validated, each against the first side.  When all their
    lists name every member of the first side the result is that of the
    first two sides alone, otherwise [MissingPreferences] is raised. *)
Theorem further_sides_only_validated O fuel sA A sB B rest :
  sA <> sB ->
  Forall (fun sC => fst sC <> sA) rest ->
  stable_matching O fuel ((sA, A) :: (sB, B) :: rest) =
  if forallb (fun sC => forallb (fun np => ranks_all A (snd np)) (snd sC)) rest
  then stable_matching O fuel [(sA, A); (sB, B)]
  else Raise MissingPreferences.
Proof.
  intros Hne HF.
  assert (EAB : (sA =? sB) = false) by now apply String.eqb_neq.
  assert (EBA : (sB =? sA) = false) by (apply String.eqb_neq; congruence).
  unfold stable_matching.
  rewrite proposal_engine_two_sides by exact Hne.
  unfold proposal_engine, all_preferences. simpl.
  repeat (rewrite ?String.eqb_refl, ?EAB, ?EBA; unfold subscript; simpl).
  change (sA :: sB :: map fst rest) with (sA :: (sB :: map fst rest)).
  rewrite (further_sides_validated sA A ((sB, B) :: rest)) by exact HF.
  match goal with
  | |- context [forallb ?f rest] => generalize (forallb f rest)
  end.
  intros extra.
  destruct (forallb (fun np => ranks_all B (snd np)) A); simpl;
    [|now destruct extra].
  destruct (forallb (fun np => ranks_all A (snd np)) B); simpl;
    [|now destruct extra].
  destruct extra; simpl; [|reflexivity].
  repeat (rewrite ?String.eqb_refl, ?EAB, ?EBA; simpl). reflexivity.
Qed.

Lemma further_sides_only_validated_witness :
  stable_matching insertion_order 2
    (("side_A", sample_proposers) :: ("side_B", sample_receivers) ::
     [("side_C", [("zzz", ["pqq"; "asd"; "abc"; "123"])])]) =
  stable_matching insertion_order 2
    [("side_A", sample_proposers); ("side_B", sample_receivers)].
Proof.
  apply (further_sides_only_validated insertion_order 2
           "side_A" sample_proposers "side_B" sample_receivers
           [("side_C", [("zzz", ["pqq"; "asd"; "abc"; "123"])])]).
  - discriminate.
  - repeat constructor. discriminate.
Defined.

(** ** Runs without proposers *)

Lemma set_iter_nil O : set_iter O [] = [].
Proof.
  apply Permutation_nil, Permutation_sym, set_iter_perm.
Qed.

(** X6. With an empty proposing side the validation passes whatever the
    receivers' lists are, the loop body never runs (no fuel is needed) and
    the returned list is empty. *)
Theorem no_proposers_empty_matching O fuel sA sB B :
  sA <> sB ->
  stable_matching O fuel [(sA, []); (sB, B)] = Ok [].
Proof.
  intros Hne. unfold stable_matching.
  rewrite proposal_engine_two_sides by exact Hne. simpl.
  assert (E : forallb (fun np : string * Preferences => ranks_all [] (snd np)) B
              = true) by (apply forallb_forall; reflexivity).
  rewrite E, loop_nil. simpl. now rewrite set_iter_nil.
Qed.

Lemma no_proposers_empty_matching_witness :
  stable_matching reversed_order 0
    [("side_A", []); ("side_B", [("123", []); ("451", ["nobody"])])] = Ok [].
Proof.
  apply (no_proposers_empty_matching reversed_order 0 "side_A" "side_B").
  discriminate.
Defined.

(** ** The composer keeps every couple *)

(** X7. The returned list holds exactly the couples of the final
    engagement dict: every returned pair is an entry of the dict, and
    every entry [(a, b)] of the dict is returned as [(a, b)] or as
    [(b, a)]. *)
Theorem returned_pairs_are_the_engagements O fuel participants st l :
  proposal_engine fuel participants = Ok st ->
  stable_matching O fuel participants = Ok l ->
  (forall a b, In (a, b) l -> In (a, b) (engagements st)) /\
  (forall a b, In (a, b) (engagements st) -> In (a, b) l \/ In (b, a) l).
Proof.
  intros He H. rewrite (stable_matching_of_engine O _ _ _ He) in H.
  injection H as <-. split.
  - intros a b I. now apply compose_In, (set_iter_In O).
  - intros a b I.
    destruct (fold_add_couple_covers (engagements st) [] a b I) as [H|H];
      [left | right]; now apply set_iter_In.
Qed.

Lemma returned_pairs_are_the_engagements_witness :
  exists st l,
    proposal_engine 2 sample_participants = Ok st /\
    stable_matching reversed_order 2 sample_participants = Ok l /\
    (forall a b, In (a, b) l -> In (a, b) (engagements st)) /\
    (forall a b, In (a, b) (engagements st) -> In (a, b) l \/ In (b, a) l).
Proof.
  do 2 eexists. split; [vm_compute; reflexivity|].
  split; [vm_compute; reflexivity|].
  apply (returned_pairs_are_the_engagements reversed_order 2
           sample_participants); reflexivity.
Defined.

(** ** The proposal history *)

Lemma dict_mem_set {V} x k (v : V) d :
  dict_mem x (dict_set k v d) = (x =? k) || dict_mem x d.
Proof.
  unfold dict_mem. destruct (String.eqb_spec x k) as [->|Hne]; simpl.
  - now rewrite dict_get_set_eq.
  - rewrite dict_get_set_neq by congruence. reflexivity.
Qed.

Lemma dict_keys_set_present {V} k (v v' : V) d :
  dict_get k d = Some v -> dict_keys (dict_set k v' d) = dict_keys d.
Proof.
  intros H. rewrite dict_keys_set.
  unfold dict_mem. now rewrite H.
Qed.

Lemma proposed_to_set history p h q x :
  proposed_to (dict_set p h history) q x =
  if q =? p then dict_mem x h else proposed_to history q x.
Proof.
  unfold proposed_to. destruct (String.eqb_spec q p) as [->|Hne].
  - now rewrite dict_get_set_eq.
  - now rewrite dict_get_set_neq by congruence.
Qed.

Section HistoryFacts.

Variable proposers receivers : Side.

(** The scan finds the first name of the list that is not in the
    proposer's history. *)
Lemma next_target_Some history proposer preferences target :
  next_target history proposer preferences = Ok (Some target) ->
  exists proposed before after,
    dict_get proposer history = Some proposed /\
    preferences = before ++ target :: after /\
    (forall x, In x before -> dict_mem x proposed = true) /\
    dict_mem target proposed = false.
Proof.
  induction preferences as [|t rest IH]; simpl; [discriminate|].
  intros H. apply bind_Ok in H. destruct H as [h [Hh H]].
  apply subscript_Ok in Hh.
  destruct (dict_mem t h) eqn:Em; simpl in H.
  - destruct (IH H) as [h' [before [after [Hh' [-> [Hb Ht]]]]]].
    assert (h' = h) by congruence. subst h'.
    exists h, (t :: before), after. split; [exact Hh|].
    split; [reflexivity|]. split; [|exact Ht].
    intros x [<-|I]; [exact Em | now apply Hb].
  - injection H as <-. exists h, [], rest. split; [exact Hh|].
    split; [reflexivity|]. split; [intros x []|exact Em].
Qed.

Lemma next_target_None history proposer preferences :
  next_target history proposer preferences = Ok None ->
  forall x, In x preferences -> proposed_to history proposer x = true.
Proof.
  induction preferences as [|t rest IH]; simpl; [intros _ x []|].
  intros H. apply bind_Ok in H. destruct H as [h [Hh H]].
  apply subscript_Ok in Hh.
  destruct (dict_mem t h) eqn:Em; simpl in H; [|discriminate].
  intros x [<-|I]; [|now apply IH].
  unfold proposed_to. now rewrite Hh.
Qed.

Lemma next_target_total history proposer proposed preferences :
  dict_get proposer history = Some proposed ->
  next_target history proposer preferences = Ok None \/
  exists target, next_target history proposer preferences = Ok (Some target).
Proof.
  intros Hh. induction preferences as [|t rest IH]; simpl; [now left|].
  unfold subscript. rewrite Hh. simpl.
  destruct (dict_mem t proposed); simpl; [exact IH | right; now exists t].
Qed.

Lemma next_target_ext history history' proposer preferences :
  dict_get proposer history' = dict_get proposer history ->
  next_target history' proposer preferences =
  next_target history proposer preferences.
Proof.
  intros E. induction preferences as [|t rest IH]; simpl; [reflexivity|].
  unfold subscript. rewrite E.
  destruct (dict_get proposer history) as [h|]; simpl; [|reflexivity].
  now rewrite IH.
Qed.

(** A successful [propose] in full: either the proposer has nobody left
    and the state is unchanged, or the first unproposed name of its list
    is recorded in its history and one of the three engagement updates
    takes place. *)
Lemma propose_cases proposer st st' :
  propose proposers receivers proposer st = Ok st' ->
  exists preferences,
    dict_get proposer proposers = Some preferences /\
    ((next_target (proposal_history st) proposer preferences = Ok None /\
      st' = st) \/
     exists target proposed,
       next_target (proposal_history st) proposer preferences
         = Ok (Some target) /\
       dict_get proposer (proposal_history st) = Some proposed /\
       proposal_history st' =
         dict_set proposer (dict_set target "" proposed) (proposal_history st) /\
       ((dict_get target (engagements st) = None /\
         engagements st' =
           dict_set target proposer
             (dict_set proposer target (engagements st))) \/
        exists current target_preferences,
          dict_get target (engagements st) = Some current /\
          dict_get target receivers = Some target_preferences /\
          ((preferred proposer current target_preferences = Some true /\
            engagements st' =
              dict_remove current
                (dict_set proposer target
                   (dict_set target proposer (engagements st)))) \/
           (truthy (preferred proposer current target_preferences) = false /\
            engagements st' = engagements st)))).
Proof.
  unfold propose. intros H.
  apply bind_Ok in H. destruct H as [preferences [Hp H]].
  apply subscript_Ok in Hp. exists preferences. split; [exact Hp|].
  apply bind_Ok in H. destruct H as [found [Hf H]].
  destruct found as [target|]; [|injection H as <-; now left].
  right. apply bind_Ok in H. destruct H as [proposed [Hh H]].
  apply subscript_Ok in Hh. exists target, proposed.
  split; [exact Hf|]. split; [exact Hh|].
  unfold is_free, current_match in H.
  destruct (dict_mem target (engagements st)) eqn:Em; simpl in H.
  - apply dict_mem_true in Em. destruct Em as [current Ec].
    rewrite Ec in H.
    apply bind_Ok in H. destruct H as [tp [Ht H]].
    apply subscript_Ok in Ht.
    destruct (truthy (preferred proposer current tp)) eqn:Et.
    + apply truthy_true in Et.
      apply bind_Ok in H. destruct H as [engaged [Hd H]].
      unfold dict_del in Hd. destruct (dict_mem current _); [|discriminate].
      injection Hd as <-. injection H as <-. simpl.
      split; [reflexivity|]. right. exists current, tp.
      split; [exact Ec|]. split; [exact Ht|]. left. now split.
    + injection H as <-. simpl. split; [reflexivity|].
      right. exists current, tp.
      split; [exact Ec|]. split; [exact Ht|]. right. now split.
  - apply dict_mem_false in Em. injection H as <-. simpl.
    split; [reflexivity|]. left. now split.
Qed.

Lemma sweep_propose_invariant (J : state -> Prop) :
  (forall p st st',
     J st -> propose proposers receivers p st = Ok st' -> J st') ->
  forall l st st',
    J st -> sweep proposers receivers l st = Ok st' -> J st'.
Proof.
  intros Hstep. induction l as [|p l IH]; simpl; intros st st' HJ H.
  - now injection H as <-.
  - apply bind_Ok in H. destruct H as [st1 [Hp H]].
    apply IH with (st := st1); [|exact H]. eapply Hstep; eauto.
Qed.

Lemma between_steps_propose_invariant (J : state -> Prop) :
  J (initial_state proposers) ->
  (forall p st st',
     J st -> propose proposers receivers p st = Ok st' -> J st') ->
  forall st, between_steps proposers receivers st -> J st.
Proof.
  intros H0 Hstep.
  assert (Hheads : forall fl st, loop_head proposers receivers fl st -> J st).
  { intros fl st Hh. induction Hh as [|fl st st' Hh IH Hne Hs];
      [exact H0 | exact (sweep_propose_invariant J Hstep _ _ _ IH Hs)]. }
  intros st [fl [st0 [done [todo [Hh [_ Hs]]]]]].
  exact (sweep_propose_invariant J Hstep _ _ _ (Hheads _ _ Hh) Hs).
Qed.

Lemma preferred_before_first before target after x :
  preferred x target (before ++ target :: after) = Some true ->
  In x before \/ x = target.
Proof.
  induction before as [|y before IH]; simpl.
  - destruct (String.eqb_spec target x) as [->|Hne]; [now right|].
    now rewrite String.eqb_refl.
  - destruct (String.eqb_spec y x) as [->|Hyx]; [intros _; left; now left|].
    destruct (String.eqb_spec y target) as [->|Hyt]; [discriminate|].
    intros H. destruct (IH H) as [I|E]; [left; now right | now right].
Qed.

Lemma initial_history_ok :
  history_ok proposers (proposal_history (initial_state proposers)).
Proof.
  split.
  - simpl. unfold dict_keys. rewrite map_map. simpl. apply map_id.
  - intros p preferences _.
    assert (E : forall t,
              proposed_to (proposal_history (initial_state proposers)) p t
              = false).
    { intros t. unfold proposed_to. simpl.
      induction (dict_keys proposers) as [|k ks IH]; simpl; [reflexivity|].
      destruct (p =? k); [reflexivity | exact IH]. }
    split; intros t; [|intros t']; rewrite E; discriminate.
Qed.

Lemma propose_history_ok proposer st st' :
  history_ok proposers (proposal_history st) ->
  propose proposers receivers proposer st = Ok st' ->
  history_ok proposers (proposal_history st').
Proof.
  intros [Hkeys Hok] H. apply propose_cases in H.
  destruct H as [preferences [Hp [[_ ->]|H]]]; [now split|].
  destruct H as [target [proposed [Hf [Hh [-> _]]]]].
  split; [now rewrite (dict_keys_set_present _ _ _ _ Hh)|].
  intros q prefs Hq.
  destruct (Hok q prefs Hq) as [Hin Hclosed].
  destruct (String.eqb_spec q proposer) as [->|Hne].
  - assert (prefs = preferences) by congruence. subst prefs.
    apply next_target_Some in Hf.
    destruct Hf as [h [before [after [Hh' [E [Hb Ht]]]]]].
    assert (h = proposed) by congruence. subst h.
    assert (Hold : forall x,
              proposed_to (proposal_history st) proposer x
              = dict_mem x proposed)
      by (intros x; unfold proposed_to; now rewrite Hh).
    split.
    + intros t. rewrite proposed_to_set, String.eqb_refl, dict_mem_set.
      intros Hm. apply orb_true_iff in Hm. destruct Hm as [Hm|Hm].
      * apply String.eqb_eq in Hm. subst t. rewrite E.
        apply in_or_app. right. now left.
      * apply Hin. now rewrite Hold.
    + intros t t'.
      rewrite !proposed_to_set, String.eqb_refl, !dict_mem_set.
      intros Hm Hpref. apply orb_true_iff in Hm. apply orb_true_iff.
      destruct Hm as [Hm|Hm].
      * apply String.eqb_eq in Hm. subst t. rewrite E in Hpref.
        apply preferred_before_first in Hpref.
        destruct Hpref as [I| ->]; [right; now apply Hb|].
        left. apply String.eqb_refl.
      * right. rewrite <- Hold. apply (Hclosed t t'); [|exact Hpref].
        now rewrite Hold.
  - assert (Eq : forall x,
              proposed_to
                (dict_set proposer (dict_set target "" proposed)
                   (proposal_history st)) q x
              = proposed_to (proposal_history st) q x).
    { intros x. rewrite proposed_to_set.
      destruct (String.eqb_spec q proposer); congruence. }
    split.
    + intros t. rewrite Eq. apply Hin.
    + intros t t'. rewrite !Eq. apply Hclosed.
Qed.

End HistoryFacts.

(** X8. Between any two proposal steps the history has an entry for every
    proposer; a proposer has only proposed to names of its own list, and
    whenever it has proposed to [t] it has proposed to every name that
    [preferred] ranks before [t] on that list: proposals go down the list
    in order, none skipped. *)
Theorem proposals_follow_the_list proposers receivers st :
  between_steps proposers receivers st ->
  history_ok proposers (proposal_history st).
Proof.
  revert st. apply between_steps_propose_invariant.
  - apply initial_history_ok.
  - intros p st st'. apply propose_history_ok.
Qed.

Lemma proposals_follow_the_list_witness :
  exists st,
    proposal_engine 2 sample_participants = Ok st /\
    proposal_history st =
      [("abc", [("123", ""); ("451", "")]);
       ("asd", [("123", ""); ("912", "")]);
       ("pqq", [("123", "")])] /\
    history_ok sample_proposers (proposal_history st).
Proof.
  eexists. split; [vm_compute; reflexivity|]. split; [reflexivity|].
  apply (proposals_follow_the_list sample_proposers sample_receivers).
  apply loop_head_between with (free_proposers := []).
  apply (engine_final 2 "side_A" sample_proposers "side_B" sample_receivers).
  reflexivity.
Defined.

(** ** Receivers along a run *)

Lemma sweep_app proposers receivers done : forall todo st,
  sweep proposers receivers (done ++ todo) st =
  (st' <- sweep proposers receivers done st ;;
   sweep proposers receivers todo st').
Proof.
  induction done as [|p done IH]; simpl; intros todo st; [reflexivity|].
  destruct (propose proposers receivers p st) as [st1| |]; simpl;
    [apply IH | reflexivity | reflexivity].
Qed.

Section ReceiverFacts.

Variable proposers receivers : Side.

Hypothesis proposers_apart : apart proposers = true.

Lemma never_worse_trans r c c' c'' :
  never_worse receivers r c c' ->
  never_worse receivers r c' c'' ->
  never_worse receivers r c c''.
Proof.
  intros [->|[prefs [Hr H]]] [->|[prefs' [Hr' H']]].
  - now left.
  - right. now exists prefs'.
  - right. now exists prefs.
  - right. exists prefs. split; [exact Hr|].
    assert (prefs' = prefs) by congruence. subst prefs'.
    exact (preferred_trans _ _ _ _ H' H).
Qed.

Lemma receivers_keep_trans e1 e2 e3 :
  receivers_keep proposers receivers e1 e2 ->
  receivers_keep proposers receivers e2 e3 ->
  receivers_keep proposers receivers e1 e3.
Proof.
  intros H12 H23 r c Hr Hc.
  destruct (H12 r c Hr Hc) as [c' [Hc' Hw]].
  destruct (H23 r c' Hr Hc') as [c'' [Hc'' Hw']].
  exists c''. split; [exact Hc''|]. eapply never_worse_trans; eauto.
Qed.

Lemma receivers_keep_refl e : receivers_keep proposers receivers e e.
Proof. intros r c _ Hc. exists c. split; [exact Hc | now left]. Qed.

Lemma proposal_receivers_keep proposer st st' :
  entries_sided proposers (engagements st) ->
  proposal proposers receivers proposer st st' ->
  receivers_keep proposers receivers (engagements st) (engagements st').
Proof.
  intros Hes Hstep.
  destruct Hstep as [|preferences target h Hp It Ht
                     |preferences target h current tp Hp It Ht Hr Hpref
                     |preferences target h current tp Hp It Ht Hr];
    simpl; try apply receivers_keep_refl.
  - intros r c Hnr Hc. exists c. split; [|now left].
    assert (r <> proposer)
      by (intros ->; apply Hnr; eapply dict_get_key; eauto).
    assert (r <> target) by congruence.
    rewrite !dict_get_set_neq; congruence.
  - destruct (incumbent_is_proposer _ _ _ _ _ _ proposers_apart Hes Hp It Ht)
      as [Hkp Hkc].
    assert (Hnt : ~ In target (dict_keys proposers))
      by (eapply apart_spec; eauto using dict_get_In).
    intros r c Hnr Hc.
    assert (r <> proposer) by (intros ->; contradiction).
    assert (r <> current) by (intros ->; contradiction).
    assert (target <> current) by (intros ->; contradiction).
    assert (target <> proposer) by (intros ->; contradiction).
    destruct (string_dec r target) as [->|Hrt].
    + exists proposer.
      rewrite dict_get_remove_neq, dict_get_set_neq, dict_get_set_eq
        by congruence.
      split; [reflexivity|]. right. exists tp.
      split; [exact Hr|]. congruence.
    + exists c. split; [|now left].
      rewrite dict_get_remove_neq, !dict_get_set_neq; congruence.
Qed.

Lemma sweep_receivers_keep l : forall st st',
  entries_sided proposers (engagements st) ->
  sweep proposers receivers l st = Ok st' ->
  entries_sided proposers (engagements st') /\
  receivers_keep proposers receivers (engagements st) (engagements st').
Proof.
  induction l as [|p l IH]; simpl; intros st st' Hes H.
  - injection H as <-. split; [exact Hes | apply receivers_keep_refl].
  - apply bind_Ok in H. destruct H as [st1 [Hp H]].
    apply propose_Ok in Hp.
    assert (Hes1 := proposal_entries_sided _ _ _ _ _ Hp Hes).
    destruct (IH _ _ Hes1 H) as [Hes' Hk]. split; [exact Hes'|].
    eapply receivers_keep_trans; [|exact Hk].
    eapply proposal_receivers_keep; eauto.
Qed.

Lemma loop_receivers_keep fuel : forall fl st st',
  entries_sided proposers (engagements st) ->
  loop proposers receivers fuel fl st = Ok st' ->
  receivers_keep proposers receivers (engagements st) (engagements st').
Proof.
  induction fuel as [|fuel IH]; intros [|p rest] st st' Hes H;
    try (rewrite loop_nil in H; injection H as <-;
         apply receivers_keep_refl);
    [discriminate|].
  rewrite loop_step in H. apply bind_Ok in H. destruct H as [st1 [Hs H]].
  destruct (sweep_receivers_keep _ _ _ Hes Hs) as [Hes1 Hk].
  eapply receivers_keep_trans; [exact Hk|]. eapply IH; eauto.
Qed.

(** A run that returns [final] passes through every loop head and ends
    from there. *)
Lemma head_continues fuel final fl st :
  loop proposers receivers fuel (dict_keys proposers)
    (initial_state proposers) = Ok final ->
  loop_head proposers receivers fl st ->
  exists k, loop proposers receivers k fl st = Ok final.
Proof.
  intros Hrun Hh. induction Hh as [|fl st st' Hh [k IH] Hne Hs].
  - now exists fuel.
  - destruct fl as [|p rest]; [congruence|].
    destruct k as [|k]; [discriminate|].
    rewrite loop_step, Hs in IH. now exists k.
Qed.

End ReceiverFacts.

(** X9. Along a run that returns, with no proposer named in a proposer's
    list (the sides are disjoint): whoever of the receiving side is engaged
    at some point between two proposal steps is still engaged in the final
    engagement dict, to the same proposer or to one that [preferred] ranks
    before it on the receiver's list. *)
Theorem engaged_receivers_never_trade_down fuel sA A sB B st final :
  apart A = true ->
  between_steps A B st ->
  proposal_engine fuel [(sA, A); (sB, B)] = Ok final ->
  receivers_keep A B (engagements st) (engagements final).
Proof.
  intros Ha Hb He.
  assert (Hes : entries_sided A (engagements st)).
  { revert st Hb. apply between_steps_invariant.
    - intros k v [].
    - intros p st st' HJ Hstep. eapply proposal_entries_sided; eauto. }
  destruct (engine_final _ _ _ _ _ _ He) as [Hv _].
  apply validated_two_sides in Hv. destruct Hv as [Hne _].
  rewrite proposal_engine_two_sides in He by exact Hne.
  destruct (_ && _); [|discriminate].
  destruct Hb as [fl [st0 [done [todo [Hh [Hfl Hs]]]]]].
  destruct (head_continues A B fuel final fl st0 He Hh) as [k Hk].
  destruct fl as [|p rest].
  - destruct done; [|discriminate]. simpl in Hs. injection Hs as <-.
    rewrite loop_nil in Hk. injection Hk as <-.
    apply receivers_keep_refl.
  - destruct k as [|k]; [discriminate|].
    rewrite loop_step, Hfl, sweep_app, Hs in Hk. simpl bind in Hk.
    apply bind_Ok in Hk. destruct Hk as [st1 [Hs1 Hk]].
    destruct (sweep_receivers_keep A B Ha _ _ _ Hes Hs1) as [Hes1 Hk1].
    eapply receivers_keep_trans; [exact Hk1|].
    eapply loop_receivers_keep; eauto.
Qed.

Lemma engaged_receivers_never_trade_down_witness :
  exists st final,
    sweep sample_proposers sample_receivers ["abc"; "asd"]
      (initial_state sample_proposers) = Ok st /\
    dict_get "123" (engagements st) = Some "asd" /\
    proposal_engine 2 sample_participants = Ok final /\
    dict_get "123" (engagements final) = Some "pqq" /\
    receivers_keep sample_proposers sample_receivers
      (engagements st) (engagements final).
Proof.
  do 2 eexists. split; [vm_compute; reflexivity|]. split; [reflexivity|].
  split; [vm_compute; reflexivity|]. split; [reflexivity|].
  apply (engaged_receivers_never_trade_down 2
           "side_A" sample_proposers "side_B" sample_receivers);
    [reflexivity | | reflexivity].
  exists (dict_keys sample_proposers), (initial_state sample_proposers),
    ["abc"; "asd"], ["pqq"].
  split; [apply head_first|]. split; reflexivity.
Defined.

(** ** Runs that return *)

Lemma filter_length_le {A} (g g' : A -> bool) l :
  (forall x, In x l -> g' x = true -> g x = true) ->
  length (filter g' l) <= length (filter g l).
Proof.
  induction l as [|y l IH]; simpl; intros H; [lia|].
  assert (IH' := IH (fun x I => H x (or_intror I))).
  destruct (g' y) eqn:E'.
  - rewrite (H y (or_introl eq_refl) E'). simpl. lia.
  - destruct (g y); simpl; lia.
Qed.

Lemma filter_length_lt {A} (g g' : A -> bool) l x :
  (forall y, In y l -> g' y = true -> g y = true) ->
  In x l -> g x = true -> g' x = false ->
  length (filter g' l) < length (filter g l).
Proof.
  induction l as [|y l IH]; simpl; intros H I Hg Hg'; [destruct I|].
  assert (Hle := filter_length_le g g' l (fun z Iz => H z (or_intror Iz))).
  destruct I as [->|I].
  - rewrite Hg, Hg'. simpl. lia.
  - assert (IH' := IH (fun z Iz => H z (or_intror Iz)) I Hg Hg').
    destruct (g' y) eqn:E'.
    + rewrite (H y (or_introl eq_refl) E'). simpl. lia.
    + destruct (g y); simpl; lia.
Qed.

Lemma list_sum_map_lt {A} (f f' : A -> nat) l x :
  (forall y, In y l -> f' y <= f y) ->
  In x l -> f' x < f x ->
  list_sum (map f' l) < list_sum (map f l).
Proof.
  induction l as [|y l IH]; simpl; intros H I Hlt; [destruct I|].
  assert (Hy := H y (or_introl eq_refl)).
  assert (Hle : list_sum (map f' l) <= list_sum (map f l)).
  { clear IH I. induction l as [|z l IHl]; simpl; [lia|].
    assert (Hz := H z (or_intror (or_introl eq_refl))).
    assert (IHl' := IHl (fun w Iw =>
                           match Iw with
                           | or_introl E => H w (or_introl E)
                           | or_intror Iw' => H w (or_intror (or_intror Iw'))
                           end)).
    lia. }
  destruct I as [->|I]; [lia|].
  assert (IH' := IH (fun z Iz => H z (or_intror Iz)) I Hlt). lia.
Qed.

Lemma dict_mem_remove_neq {V} x k (d : dict V) :
  x <> k -> dict_mem x (dict_remove k d) = dict_mem x d.
Proof.
  intros Hne. unfold dict_mem. now rewrite dict_get_remove_neq by congruence.
Qed.

Lemma dict_get_of_key {V} k (d : dict V) :
  In k (dict_keys d) -> exists v, dict_get k d = Some v.
Proof.
  intros I. destruct (dict_get k d) as [v|] eqn:E; [now exists v|].
  apply dict_get_None in E. contradiction.
Qed.

(** Recording one more proposal lowers the number of unproposed entries. *)
Lemma remaining_decreases proposers history p preferences proposed target :
  dict_get p proposers = Some preferences ->
  dict_get p history = Some proposed ->
  In target preferences ->
  dict_mem target proposed = false ->
  remaining proposers
    (dict_set p (dict_set target "" proposed) history)
  < remaining proposers history.
Proof.
  intros Hp Hh It Ht. unfold remaining.
  assert (Hmono : forall q x,
            negb (proposed_to
                    (dict_set p (dict_set target "" proposed) history) q x)
            = true ->
            negb (proposed_to history q x) = true).
  { intros q x. rewrite proposed_to_set.
    destruct (String.eqb_spec q p) as [->|Hne]; [|trivial].
    unfold proposed_to. rewrite Hh, dict_mem_set.
    destruct (dict_mem x proposed); [|reflexivity].
    now rewrite orb_true_r. }
  apply list_sum_map_lt with (x := (p, preferences)).
  - intros [q prefs] _. unfold unproposed. simpl.
    apply filter_length_le. intros x _. apply Hmono.
  - now apply dict_get_In.
  - unfold unproposed. simpl.
    apply filter_length_lt with (x := target).
    + intros x _. apply Hmono.
    + exact It.
    + unfold proposed_to. now rewrite Hh, Ht.
    + rewrite proposed_to_set, String.eqb_refl, dict_mem_set,
        String.eqb_refl. reflexivity.
Qed.

Lemma remaining_initial proposers :
  remaining proposers (proposal_history (initial_state proposers))
  <= total_preferences proposers.
Proof.
  unfold remaining, total_preferences.
  generalize (proposal_history (initial_state proposers)). intros history.
  induction proposers as [|[p prefs] rest IH]; simpl; [lia|].
  assert (unproposed history (p, prefs) <= length prefs).
  { unfold unproposed. simpl. generalize prefs. intros l.
    induction l as [|x l IHl]; simpl; [lia|].
    destruct (negb (proposed_to history p x)); simpl; lia. }
  lia.
Qed.

Section ReturnFacts.

Variable proposers receivers : Side.

Hypothesis proposers_distinct : distinct_keys proposers = true.
Hypothesis receivers_distinct : distinct_keys receivers = true.
Hypothesis proposers_apart : apart proposers = true.
Hypothesis targets_known : known_targets proposers receivers = true.
Hypothesis proposers_rank_all :
  forall name preferences o,
    In (name, preferences) proposers -> In o (dict_keys receivers) ->
    In o preferences.
Hypothesis receivers_suffice : length proposers <= length receivers.

(** The partners of engaged non-proposers are as many different
    proposers. *)
Lemma partners_of engaged l :
  symmetric engaged ->
  entries_sided proposers engaged ->
  NoDup l ->
  (forall r, In r l ->
     ~ In r (dict_keys proposers) /\ dict_mem r engaged = true) ->
  exists partners,
    length partners = length l /\
    NoDup partners /\
    forall c, In c partners ->
      In c (dict_keys proposers) /\
      exists r, In r l /\ dict_get r engaged = Some c.
Proof.
  intros Hs Hes. induction l as [|r l IH]; intros Hnd Hl.
  - exists []. split; [reflexivity|]. split; [constructor | intros c []].
  - inversion Hnd as [|? ? Hr Hnd']; subst.
    destruct (IH Hnd' (fun x I => Hl x (or_intror I)))
      as [partners [Hlen [Hndp Hp]]].
    destruct (Hl r (or_introl eq_refl)) as [Hnr Hm].
    apply dict_mem_true in Hm. destruct Hm as [c Hc].
    assert (Hkc : In c (dict_keys proposers)).
    { destruct (Hes r c (dict_get_In _ _ _ Hc)) as [H|H];
        apply couple_of_key in H; [contradiction | exact H]. }
    exists (c :: partners). split; [simpl; congruence|]. split.
    + constructor; [|exact Hndp]. intros I.
      destruct (Hp c I) as [_ [r' [Ir' Hc']]].
      apply Hs in Hc, Hc'. assert (r' = r) by congruence. subst r'.
      contradiction.
    + intros x [<-|I].
      * split; [exact Hkc|]. exists r. split; [now left | exact Hc].
      * destruct (Hp x I) as [Hx [r' [Ir' Hr']]].
        split; [exact Hx|]. exists r'. split; [now right | exact Hr'].
Qed.

(** With no more proposers than receivers, a proposer cannot be free
    while every receiver is engaged. *)
Lemma all_engaged_none_free engaged p :
  symmetric engaged ->
  entries_sided proposers engaged ->
  (forall r, In r (dict_keys receivers) -> dict_mem r engaged = true) ->
  In p (dict_keys proposers) ->
  dict_get p engaged = None ->
  False.
Proof.
  intros Hs Hes Hall Ip Hp.
  destruct (dict_get_of_key _ _ Ip) as [prefs Hprefs].
  apply dict_get_In in Hprefs.
  assert (Hnd : NoDup (dict_keys receivers)) by now apply distinct_NoDup.
  destruct (partners_of engaged (dict_keys receivers) Hs Hes Hnd)
    as [partners [Hlen [Hndp Hpart]]].
  { intros r Ir. split; [|now apply Hall].
    eapply apart_spec; eauto. }
  assert (Hnd' : NoDup (p :: partners)).
  { constructor; [|exact Hndp]. intros I.
    destruct (Hpart p I) as [_ [r [_ Hr]]]. apply Hs in Hr. congruence. }
  assert (Hincl : incl (p :: partners) (dict_keys proposers)).
  { intros x [<-|I]; [exact Ip | now apply Hpart]. }
  apply NoDup_incl_length in Hincl; [|exact Hnd'].
  simpl in Hincl. unfold dict_keys in *. rewrite !length_map in *. lia.
Qed.

(** A free proposer still has somebody to propose to. *)
Lemma free_proposer_has_target p todo st preferences :
  run_inv proposers (p :: todo) st ->
  dict_get p proposers = Some preferences ->
  exists target,
    next_target (proposal_history st) p preferences = Ok (Some target).
Proof.
  intros [[_ [Hfree [[Hs _] Hes]]] [[Hkeys _] Hpe]] Hp.
  destruct (Hfree p (or_introl eq_refl)) as [Ip Hpfree].
  assert (Ih : In p (dict_keys (proposal_history st))) by now rewrite Hkeys.
  destruct (dict_get_of_key _ _ Ih) as [h Hh].
  destruct (next_target_total (proposal_history st) p h preferences Hh)
    as [Hnone|Hsome]; [|exact Hsome].
  exfalso. apply (all_engaged_none_free (engagements st) p Hs Hes);
    [|exact Ip|exact Hpfree].
  intros r Ir. apply (Hpe p r).
  apply (next_target_None _ _ _ Hnone).
  eapply proposers_rank_all; eauto using dict_get_In.
Qed.

(** Under the invariant a proposal step raises nothing. *)
Lemma propose_succeeds p todo st :
  run_inv proposers (p :: todo) st ->
  exists st', propose proposers receivers p st = Ok st'.
Proof.
  intros Hinv.
  assert (Hinv' := Hinv).
  destruct Hinv' as [[_ [Hfree [[Hs _] Hes]]] _].
  destruct (Hfree p (or_introl eq_refl)) as [Ip Hpfree].
  destruct (dict_get_of_key _ _ Ip) as [preferences Hp].
  destruct (free_proposer_has_target _ _ _ _ Hinv Hp) as [target Hnt].
  destruct (next_target_Some _ _ _ _ Hnt)
    as [h [before [after [Hh [E _]]]]].
  assert (It : In target preferences)
    by (rewrite E; apply in_or_app; right; now left).
  assert (Ir : In target (dict_keys receivers))
    by (eapply known_targets_spec; eauto using dict_get_In).
  destruct (dict_get_of_key _ _ Ir) as [tp Htp].
  unfold propose, subscript. rewrite Hp. simpl. rewrite Hnt. simpl.
  rewrite Hh. simpl. unfold is_free, current_match.
  destruct (dict_mem target (engagements st)) eqn:Em; simpl;
    [|eexists; reflexivity].
  apply dict_mem_true in Em. destruct Em as [c Hc].
  rewrite Hc, Htp. simpl.
  destruct (truthy (preferred p c tp)); [|eexists; reflexivity].
  destruct (incumbent_is_proposer _ _ _ _ _ _ proposers_apart Hes Hp It Hc)
    as [_ Hkc].
  assert (Hnt' : ~ In target (dict_keys proposers))
    by (eapply apart_spec; eauto using dict_get_In).
  assert (Hct : c <> target) by (intros ->; contradiction).
  assert (Hcp : c <> p) by (apply Hs in Hc; congruence).
  unfold dict_del.
  assert (Hm : dict_mem c
                 (dict_set p target (dict_set target p (engagements st)))
               = true).
  { apply dict_mem_true. exists target.
    rewrite !dict_get_set_neq by congruence. now apply Hs. }
  rewrite Hm. simpl. eexists; reflexivity.
Qed.

Lemma proposed_engaged_step p todo st st' :
  run_inv proposers (p :: todo) st ->
  propose proposers receivers p st = Ok st' ->
  proposed_engaged st'.
Proof.
  intros [[_ [Hfree [[Hs _] Hes]]] [[Hkeys Hok] Hpe]] H.
  apply propose_cases in H.
  destruct H as [preferences [Hp [[_ ->]|H]]]; [exact Hpe|].
  destruct H as [target [proposed [Hf [Hh [Ehist Heng]]]]].
  assert (It : In target preferences) by (eapply next_target_In; eauto).
  assert (Hnt : ~ In target (dict_keys proposers))
    by (eapply apart_spec; eauto using dict_get_In).
  assert (Hpk : In p (dict_keys proposers)) by (eapply dict_get_key; eauto).
  assert (Hpt : p <> target) by (intros ->; contradiction).
  (* everybody proposed to before is engaged and is no proposer *)
  assert (Hold : forall q x,
            proposed_to (proposal_history st) q x = true ->
            dict_mem x (engagements st) = true /\
            ~ In x (dict_keys proposers)).
  { intros q x Hq. split; [now apply (Hpe q x)|].
    assert (Iq : In q (dict_keys proposers)).
    { rewrite <- Hkeys. unfold proposed_to in Hq.
      destruct (dict_get q (proposal_history st)) eqn:Eq; [|discriminate].
      eapply dict_get_key; eauto. }
    destruct (dict_get_of_key _ _ Iq) as [prefs Hq'].
    destruct (Hok q prefs Hq') as [Hin _].
    eapply apart_spec; eauto using dict_get_In. }
  intros q x Hq. rewrite Ehist, proposed_to_set in Hq.
  assert (Hx : x = target \/
               (dict_mem x (engagements st) = true /\
                ~ In x (dict_keys proposers))).
  { destruct (String.eqb_spec q p) as [->|Hne]; [|right; eapply Hold; eauto].
    rewrite dict_mem_set in Hq. apply orb_true_iff in Hq.
    destruct Hq as [Hq|Hq]; [left; now apply String.eqb_eq|].
    right. apply (Hold p x). unfold proposed_to. now rewrite Hh. }
  destruct Heng as [[Ht ->]|[current [tp [Hc [Hr Heng]]]]].
  - rewrite !dict_mem_set.
    destruct Hx as [->|[Hm _]];
      [now rewrite String.eqb_refl | rewrite Hm; now rewrite !orb_true_r].
  - destruct (incumbent_is_proposer _ _ _ _ _ _ proposers_apart Hes Hp It Hc)
      as [_ Hkc].
    destruct Heng as [[_ ->]|[_ ->]].
    + assert (x <> current)
        by (destruct Hx as [->|[_ Hnx]]; intros ->; contradiction).
      rewrite dict_mem_remove_neq, !dict_mem_set by assumption.
      destruct Hx as [->|[Hm _]];
        [rewrite String.eqb_refl; now rewrite orb_true_r
        | rewrite Hm; now rewrite !orb_true_r].
    + destruct Hx as [->|[Hm _]]; [|exact Hm].
      apply dict_mem_true. now exists current.
Qed.

Lemma propose_run_inv p todo st st' :
  run_inv proposers (p :: todo) st ->
  propose proposers receivers p st = Ok st' ->
  run_inv proposers todo st' /\
  remaining proposers (proposal_history st')
  < remaining proposers (proposal_history st).
Proof.
  intros Hinv H. split; [split; [|split]|].
  - destruct Hinv as [Hsw _].
    eapply proposal_sweep_inv; eauto using propose_Ok.
  - destruct Hinv as [_ [Hh _]]. eapply propose_history_ok; eauto.
  - eapply proposed_engaged_step; eauto.
  - assert (Hc := propose_cases _ _ _ _ _ H).
    destruct Hc as [preferences [Hp Hc]].
    destruct (free_proposer_has_target _ _ _ _ Hinv Hp) as [t Ht].
    destruct Hc as [[Hnone _]|[target [proposed [Hf [Hh [-> _]]]]]];
      [congruence|].
    destruct (next_target_Some _ _ _ _ Hf)
      as [h [before [after [Hh' [E [_ Hm]]]]]].
    assert (h = proposed) by congruence. subst h.
    eapply remaining_decreases; eauto.
    rewrite E. apply in_or_app. right. now left.
Qed.

Lemma sweep_succeeds l : forall st,
  run_inv proposers l st ->
  exists st',
    sweep proposers receivers l st = Ok st' /\
    run_inv proposers [] st' /\
    remaining proposers (proposal_history st') + length l
    <= remaining proposers (proposal_history st).
Proof.
  induction l as [|p l IH]; intros st Hinv.
  - exists st. split; [reflexivity|]. split; [exact Hinv | simpl; lia].
  - destruct (propose_succeeds _ _ _ Hinv) as [st1 H1].
    destruct (propose_run_inv _ _ _ _ Hinv H1) as [Hinv1 Hlt].
    destruct (IH st1 Hinv1) as [st' [Hs [Hinv' Hle]]].
    exists st'. simpl. rewrite H1. simpl.
    split; [exact Hs|]. split; [exact Hinv'|]. simpl. lia.
Qed.

Lemma loop_succeeds fuel : forall fl st,
  run_inv proposers fl st ->
  remaining proposers (proposal_history st) <= fuel ->
  exists st', loop proposers receivers fuel fl st = Ok st'.
Proof.
  induction fuel as [|fuel IH]; intros [|p rest] st Hinv Hle;
    try (exists st; apply loop_nil).
  - destruct (sweep_succeeds _ _ Hinv) as [st' [_ [_ H]]]. simpl in H. lia.
  - destruct (sweep_succeeds _ _ Hinv) as [st1 [Hs [Hinv1 H]]].
    rewrite loop_step, Hs. cbv beta iota delta [bind].
    apply IH; [|simpl in H; lia].
    destruct Hinv as [[Hnd [Hfree _]] _].
    destruct Hinv1 as [[_ [_ Hrest]] Hmore].
    split; [|exact Hmore].
    split; [now apply NoDup_filter|]. split; [|exact Hrest].
    intros q Iq. unfold free_participants in Iq. apply filter_In in Iq.
    destruct Iq as [Iq Hq]. split; [now apply Hfree|].
    now apply dict_mem_false, negb_true_iff.
Qed.

Lemma initial_run_inv :
  run_inv proposers (dict_keys proposers) (initial_state proposers).
Proof.
  split; [now apply initial_sweep_inv|]. split; [apply initial_history_ok|].
  intros p t H. exfalso. revert H. unfold proposed_to. simpl.
  induction (dict_keys proposers) as [|k ks IH]; simpl; [discriminate|].
  destruct (p =? k); [discriminate | exact IH].
Qed.

End ReturnFacts.

(** X10. The run returns a list, raising nothing, when the validation
    passes on two sides whose members have distinct names, no proposer is
    named in a proposer's list, the proposers' lists only name receivers
    and there are no more proposers than receivers; as many sweeps as the
    proposers' lists have entries are enough. *)
Theorem run_returns_when_receivers_suffice O fuel sA A sB B :
  all_preferences [(sA, A); (sB, B)] = Ok true ->
  distinct_keys A = true ->
  distinct_keys B = true ->
  apart A = true ->
  known_targets A B = true ->
  length A <= length B ->
  total_preferences A <= fuel ->
  exists l, stable_matching O fuel [(sA, A); (sB, B)] = Ok l.
Proof.
  intros Hv HdA HdB Ha Hk Hsize Hfuel.
  destruct (validated_two_sides _ _ _ _ Hv) as [Hne [HA _]].
  rewrite all_preferences_two_sides in Hv by exact Hne.
  injection Hv as Hv.
  destruct (loop_succeeds A B HdB Ha Hk HA Hsize fuel
              (dict_keys A) (initial_state A)) as [st Hst].
  - now apply initial_run_inv.
  - pose proof (remaining_initial A). lia.
  - exists (set_iter O (compose (engagements st))).
    unfold stable_matching.
    rewrite proposal_engine_two_sides by exact Hne.
    rewrite Hv, Hst. reflexivity.
Qed.

Lemma run_returns_when_receivers_suffice_witness :
  exists l, stable_matching insertion_order 16 late_participants = Ok l.
Proof.
  apply (run_returns_when_receivers_suffice insertion_order 16
           "side_A" late_proposers "side_B" late_receivers
           eq_refl eq_refl eq_refl eq_refl eq_refl).
  - vm_compute. lia.
  - vm_compute. lia.
Defined.

(** ** Runs that never return *)

Section StuckFacts.

Variable proposers receivers : Side.

Hypothesis proposers_apart : apart proposers = true.

Variable p : Person.
Variable preferences : Preferences.

Hypothesis p_list : dict_get p proposers = Some preferences.

Lemma propose_keeps_stuck q st st' :
  stuck p preferences st ->
  propose proposers receivers q st = Ok st' ->
  stuck p preferences st'.
Proof.
  intros [Hfree Hnone] H. apply propose_cases in H.
  destruct H as [prefs [Hq [[_ ->]|H]]]; [now split|].
  destruct H as [target [proposed [Hf [Hh [Ehist Heng]]]]].
  assert (Hqp : q <> p) by (intros ->; congruence).
  assert (Hpk : In p (dict_keys proposers)) by (eapply dict_get_key; eauto).
  assert (Htp : target <> p).
  { intros ->. eapply apart_spec; eauto using dict_get_In.
    eapply next_target_In; eauto. }
  split.
  - destruct Heng as [[_ ->]|[current [tp [_ [_ [[_ ->]|[_ ->]]]]]]].
    + rewrite !dict_get_set_neq; congruence.
    + destruct (string_dec p current) as [->|Hpc];
        [apply dict_get_remove_eq|].
      rewrite dict_get_remove_neq, !dict_get_set_neq; congruence.
    + exact Hfree.
  - rewrite <- Hnone. apply next_target_ext.
    rewrite Ehist. now apply dict_get_set_neq.
Qed.

Lemma loop_stuck fuel : forall fl st,
  In p fl ->
  stuck p preferences st ->
  loop proposers receivers fuel fl st = OutOfFuel \/
  exists e, loop proposers receivers fuel fl st = Raise e.
Proof.
  induction fuel as [|fuel IH]; intros [|x rest] st Ip Hst;
    try destruct Ip; try (now left).
  - rewrite loop_step.
    destruct (sweep proposers receivers (x :: rest) st) as [st1|e|] eqn:Hs;
      cbv beta iota delta [bind]; [|right; now exists e|now left].
    assert (Hst1 : stuck p preferences st1)
      by (revert Hs; apply sweep_propose_invariant;
          [apply propose_keeps_stuck | exact Hst]).
    apply IH; [|exact Hst1].
    apply filter_In. split; [now left|].
    destruct Hst1 as [Hfree _].
    now apply negb_true_iff, dict_mem_false.
  - rewrite loop_step.
    destruct (sweep proposers receivers (x :: rest) st) as [st1|e|] eqn:Hs;
      cbv beta iota delta [bind]; [|right; now exists e|now left].
    assert (Hst1 : stuck p preferences st1)
      by (revert Hs; apply sweep_propose_invariant;
          [apply propose_keeps_stuck | exact Hst]).
    apply IH; [|exact Hst1].
    apply filter_In. split; [now right|].
    destruct Hst1 as [Hfree _].
    now apply negb_true_iff, dict_mem_false.
Qed.

End StuckFacts.

(** X11. With no proposer named in a proposer's list: once the loop
    sweeps a free proposer whose list holds nobody it has not proposed to
    yet, it never returns; whatever the fuel, it runs out of it or an
    exception is raised.  The proposer stays free and stays in
    [free_proposers], which therefore never becomes empty. *)
Theorem exhausted_free_proposer_never_returns
  proposers receivers p preferences fuel free_proposers st :
  apart proposers = true ->
  dict_get p proposers = Some preferences ->
  In p free_proposers ->
  dict_get p (engagements st) = None ->
  next_target (proposal_history st) p preferences = Ok None ->
  loop proposers receivers fuel free_proposers st = OutOfFuel \/
  exists e, loop proposers receivers fuel free_proposers st = Raise e.
Proof.
  intros Ha Hp Ip Hfree Hnone.
  apply (loop_stuck proposers receivers Ha p preferences Hp);
    [exact Ip | now split].
Qed.

Lemma exhausted_free_proposer_never_returns_witness :
  loop surplus_proposers surplus_receivers 7 ["b"] surplus_stuck = OutOfFuel \/
  exists e,
    loop surplus_proposers surplus_receivers 7 ["b"] surplus_stuck = Raise e.
Proof.
  apply (exhausted_free_proposer_never_returns
           surplus_proposers surplus_receivers "b" ["x"]);
    [reflexivity | reflexivity | now left | reflexivity | reflexivity].
Defined.

(** ** Names the validation lets through *)

(** X12. The validation only checks that every member of the other side
    is on each list; it lets through a list that names somebody who is not
    a receiver.  When the first two proposers both rank such a name [t]
    first, the first is engaged to [t] and the proposal of the second
    raises [KeyError] at [receivers[target]]. *)
Theorem unknown_name_raises_key_error O fuel sA sB (p1 : Person)
  (l1 : Preferences) (p2 : Person) (l2 : Preferences) (rest B : Side)
  (t : Person) :
  all_preferences
    [(sA, (p1, t :: l1) :: (p2, t :: l2) :: rest); (sB, B)] = Ok true ->
  p1 <> p2 ->
  p1 <> t ->
  dict_get t B = None ->
  stable_matching O (S fuel)
    [(sA, (p1, t :: l1) :: (p2, t :: l2) :: rest); (sB, B)]
  = Raise KeyError.
Proof.
  intros Hv H12 H1t Ht.
  destruct (validated_two_sides _ _ _ _ Hv) as [Hne _].
  rewrite all_preferences_two_sides in Hv by exact Hne.
  assert (E12 : (p1 =? p2) = false) by now apply String.eqb_neq.
  assert (E21 : (p2 =? p1) = false) by (apply String.eqb_neq; congruence).
  assert (E1t : (p1 =? t) = false) by now apply String.eqb_neq.
  assert (Et1 : (t =? p1) = false) by (apply String.eqb_neq; congruence).
  unfold stable_matching.
  rewrite proposal_engine_two_sides by exact Hne.
  destruct (_ && _); [|discriminate Hv].
  set (A := (p1, t :: l1) :: (p2, t :: l2) :: rest).
  set (st1 := mkState
                ((p1, [(t, "")]) :: (p2, []) ::
                 map (fun k => (k, [])) (dict_keys rest))
                [(p1, t); (t, p1)] []).
  assert (H1 : propose A B p1 (initial_state A) = Ok st1).
  { unfold propose, subscript, is_free, current_match, dict_mem. simpl.
    repeat (rewrite ?String.eqb_refl, ?E12, ?E21, ?E1t, ?Et1;
            unfold subscript, dict_mem; simpl).
    reflexivity. }
  assert (H2 : propose A B p2 st1 = Raise KeyError).
  { unfold propose, subscript, is_free, current_match, dict_mem. simpl.
    repeat (rewrite ?String.eqb_refl, ?E12, ?E21, ?E1t, ?Et1;
            unfold subscript, dict_mem; simpl).
    revert Ht. destruct (dict_get t B); [discriminate | reflexivity]. }
  change (dict_keys A) with (p1 :: p2 :: dict_keys rest).
  rewrite loop_step.
  change (sweep A B (p1 :: p2 :: dict_keys rest) (initial_state A))
    with (st' <- propose A B p1 (initial_state A) ;;
          st'' <- propose A B p2 st' ;;
          sweep A B (dict_keys rest) st'').
  rewrite H1. cbv beta iota delta [bind]. rewrite H2. reflexivity.
Qed.

Lemma unknown_name_raises_key_error_witness :
  stable_matching insertion_order 1
    [("side_A", [("a", ["ghost"; "x"]); ("b", ["ghost"; "x"])]);
     ("side_B", [("x", ["a"; "b"])])]
  = Raise KeyError.
Proof.
  apply (unknown_name_raises_key_error insertion_order 0
           "side_A" "side_B" "a" ["x"] "b" ["x"] []
           [("x", ["a"; "b"])] "ghost");
    [reflexivity | discriminate | discriminate | reflexivity].
Defined.

(** ** Matched proposers do not block *)

Lemma preferred_total preferences a b :
  In a preferences -> In b preferences ->
  preferred a b preferences = Some true \/
  preferred b a preferences = Some true.
Proof.
  intros Ia Ib. induction preferences as [|x l IH]; [destruct Ia|].
  simpl. destruct (String.eqb_spec x a) as [->|Hxa]; [now left|].
  destruct (String.eqb_spec x b) as [->|Hxb]; [now right|].
  destruct Ia as [E|Ia]; [congruence|]. destruct Ib as [E|Ib]; [congruence|].
  now apply IH.
Qed.

Lemma proposed_after history p proposed target q x :
  dict_get p history = Some proposed ->
  proposed_to (dict_set p (dict_set target "" proposed) history) q x =
  ((q =? p) && (x =? target)) || proposed_to history q x.
Proof.
  intros Hh. rewrite proposed_to_set.
  destruct (String.eqb_spec q p) as [->|Hne]; simpl; [|reflexivity].
  rewrite dict_mem_set. unfold proposed_to. now rewrite Hh.
Qed.

Lemma initial_nothing_proposed proposers p t :
  proposed_to (proposal_history (initial_state proposers)) p t = false.
Proof.
  unfold proposed_to. simpl. generalize (dict_keys proposers). intros ks.
  induction ks as [|k ks IH]; simpl; [reflexivity|].
  destruct (p =? k); [reflexivity | exact IH].
Qed.

Section DeferredFacts.

Variable proposers receivers : Side.

Hypothesis proposers_apart : apart proposers = true.
Hypothesis receivers_rank_all :
  forall name preferences o,
    In (name, preferences) receivers -> In o (dict_keys proposers) ->
    In o preferences.

Lemma propose_deferred_inv p todo st st' :
  deferred_inv proposers receivers (p :: todo) st ->
  propose proposers receivers p st = Ok st' ->
  deferred_inv proposers receivers todo st'.
Proof.
  intros [Hsw [Hh [Hrej Hpp]]] H.
  assert (Hstep := propose_Ok _ _ _ _ _ H).
  split; [eapply proposal_sweep_inv; eauto|].
  split; [eapply propose_history_ok; eauto|].
  destruct Hsw as [_ [Hfree [[Hs _] Hes]]].
  destruct (Hfree p (or_introl eq_refl)) as [Hpk Hpfree].
  assert (Hkeep := proposal_receivers_keep _ _ proposers_apart _ _ _ Hes Hstep).
  destruct Hh as [Hkeys Hok].
  apply propose_cases in H.
  destruct H as [preferences [Hp [[_ ->]|H]]]; [now split|].
  destruct H as [target [proposed [Hf [Hpr [Ehist Heng]]]]].
  assert (It : In target preferences) by (eapply next_target_In; eauto).
  assert (Hnt : ~ In target (dict_keys proposers))
    by (eapply apart_spec; eauto using dict_get_In).
  assert (Hpt : p <> target) by (intros ->; contradiction).
  (* whoever was proposed to before is no proposer *)
  assert (Hold : forall q x,
            proposed_to (proposal_history st) q x = true ->
            ~ In x (dict_keys proposers)).
  { intros q x Hq.
    assert (Iq : In q (dict_keys proposers)).
    { rewrite <- Hkeys. unfold proposed_to in Hq.
      destruct (dict_get q (proposal_history st)) eqn:Eq; [|discriminate].
      eapply dict_get_key; eauto. }
    destruct (dict_get_of_key _ _ Iq) as [prefs Hq'].
    destruct (Hok q prefs Hq') as [Hin _].
    eapply apart_spec; eauto using dict_get_In. }
  split.
  - (* rejections_ok *)
    intros q x Hq. rewrite Ehist, (proposed_after _ _ _ _ _ _ Hpr) in Hq.
    apply orb_true_iff in Hq. destruct Hq as [Hq|Hq].
    + apply andb_true_iff in Hq. destruct Hq as [Eq Ex].
      apply String.eqb_eq in Eq, Ex. subst q x.
      destruct Heng as [[Ht ->]|[current [tp [Hc [Hr Heng]]]]].
      * exists p. rewrite dict_get_set_eq. split; [reflexivity | now left].
      * destruct (incumbent_is_proposer _ _ _ _ _ _
                    proposers_apart Hes Hp It Hc) as [_ Hkc].
        assert (Hct : current <> target) by (intros ->; contradiction).
        assert (Hcp : current <> p) by (apply Hs in Hc; congruence).
        destruct Heng as [[_ ->]|[Hfalse ->]].
        -- exists p.
           rewrite dict_get_remove_neq, dict_get_set_neq, dict_get_set_eq
             by congruence.
           split; [reflexivity | now left].
        -- exists current. split; [exact Hc|]. right. exists tp.
           split; [exact Hr|].
           assert (Hall : forall o, In o (dict_keys proposers) -> In o tp)
             by (intros o; eapply receivers_rank_all;
                 eauto using dict_get_In).
           destruct (preferred_total tp current p
                       (Hall _ Hkc) (Hall _ Hpk)) as [Hcur|Hcur];
             [exact Hcur|].
           rewrite Hcur in Hfalse. discriminate.
    + destruct (Hrej q x Hq) as [c [Hc Hw]].
      destruct (Hkeep x c (Hold q x Hq) Hc) as [c' [Hc' Hw']].
      exists c'. split; [exact Hc'|].
      eapply never_worse_trans; eauto.
  - (* partners_proposed *)
    intros q t Iq Hq. rewrite Ehist, (proposed_after _ _ _ _ _ _ Hpr).
    apply orb_true_iff.
    destruct Heng as [[Ht Eeng]|[current [tp [Hc [Hr Heng]]]]].
    + rewrite Eeng in Hq.
      assert (q <> target) by (intros ->; contradiction).
      rewrite dict_get_set_neq in Hq by congruence.
      destruct (string_dec q p) as [->|Hqp].
      * rewrite dict_get_set_eq in Hq. injection Hq as <-.
        left. now rewrite !String.eqb_refl.
      * rewrite dict_get_set_neq in Hq by congruence.
        right. now apply Hpp.
    + destruct Heng as [[_ Eeng]|[_ Eeng]]; rewrite Eeng in Hq.
      * assert (q <> target) by (intros ->; contradiction).
        destruct (string_dec q current) as [->|Hqc];
          [rewrite dict_get_remove_eq in Hq; discriminate|].
        rewrite dict_get_remove_neq in Hq by congruence.
        destruct (string_dec q p) as [->|Hqp].
        -- rewrite dict_get_set_eq in Hq. injection Hq as <-.
           left. now rewrite !String.eqb_refl.
        -- rewrite !dict_get_set_neq in Hq by congruence.
           right. now apply Hpp.
      * right. now apply Hpp.
Qed.

Lemma sweep_prefix_deferred done : forall todo st0 st,
  deferred_inv proposers receivers (done ++ todo) st0 ->
  sweep proposers receivers done st0 = Ok st ->
  deferred_inv proposers receivers todo st.
Proof.
  induction done as [|p done IH]; simpl; intros todo st0 st Hinv H.
  - now injection H as <-.
  - apply bind_Ok in H. destruct H as [st1 [Hp H]].
    apply IH with (st0 := st1); [|exact H].
    eapply propose_deferred_inv; eauto.
Qed.

Lemma loop_head_deferred free_proposers st :
  distinct_keys proposers = true ->
  loop_head proposers receivers free_proposers st ->
  deferred_inv proposers receivers free_proposers st.
Proof.
  intros Hd Hh.
  induction Hh as [|free_proposers st st' Hh IH Hne Hs].
  - split; [now apply initial_sweep_inv|].
    split; [apply initial_history_ok|].
    split; [intros p r H; rewrite initial_nothing_proposed in H;
            discriminate|].
    intros p t _ H. discriminate.
  - assert (Hafter : deferred_inv proposers receivers [] st').
    { apply sweep_prefix_deferred with (done := free_proposers) (st0 := st);
        [now rewrite app_nil_r | exact Hs]. }
    destruct IH as [[Hnd [Hfree _]] _].
    destruct Hafter as [[_ [_ Hrest]] Hmore].
    split; [|exact Hmore].
    split; [now apply NoDup_filter|]. split; [|exact Hrest].
    intros p Ip. unfold free_participants in Ip. apply filter_In in Ip.
    destruct Ip as [Ip Hp]. split; [now apply Hfree|].
    now apply dict_mem_false, negb_true_iff.
Qed.

End DeferredFacts.

(** X13. What is left of stability: for proposers with distinct names
    none of whom is named in a proposer's list, a proposer that is matched
    in the returned list never blocks it.  Every receiver it ranks before
    its partner is matched to somebody that receiver ranks before the
    proposer.  Blocking pairs can only involve proposers left unmatched. *)
Theorem matched_proposers_do_not_block O fuel sA A sB B l p r r' :
  distinct_keys A = true ->
  apart A = true ->
  stable_matching O fuel [(sA, A); (sB, B)] = Ok l ->
  matched l p r' ->
  ~ blocking_pair A B l p r.
Proof.
  intros Hd Ha H Hm [Ip [Ir [Hnm [Hpb Hrb]]]].
  apply stable_matching_Ok in H. destruct H as [st [He ->]].
  destruct (engine_final _ _ _ _ _ _ He) as [Hv Hh].
  destruct (validated_two_sides _ _ _ _ Hv) as [_ [_ HB]].
  destruct (loop_head_deferred A B Ha HB [] st Hd Hh)
    as [[_ [_ [[Hs Hk] Hes]]] [[_ Hok] [Hrej Hpp]]].
  (* membership in the list and entries of the dict *)
  assert (Hentry : forall a b,
            matched (set_iter O (compose (engagements st))) a b ->
            dict_get a (engagements st) = Some b).
  { intros a b [I|I]; apply set_iter_In, compose_In in I;
      apply In_dict_get in I; try exact Hk; [exact I | now apply Hs]. }
  assert (Hlisted : forall a b,
            dict_get a (engagements st) = Some b ->
            matched (set_iter O (compose (engagements st))) a b).
  { intros a b G. apply dict_get_In in G.
    destruct (fold_add_couple_covers (engagements st) [] a b G) as [I|I];
      [left | right]; now apply set_iter_In. }
  assert (Hpr' := Hentry _ _ Hm).
  destruct (Hpb r' Hm) as [prefs [Hprefs Hpref]].
  destruct (Hok p prefs Hprefs) as [_ Hclosed].
  assert (Hprop : proposed_to (proposal_history st) p r = true)
    by (apply (Hclosed r' r); [now apply Hpp | exact Hpref]).
  destruct (Hrej p r Hprop) as [c [Hc [->|[tp [Htp Hcp]]]]].
  - apply Hnm. destruct (Hlisted _ _ Hc) as [I|I]; [now right | now left].
  - destruct (Hrb c (Hlisted _ _ Hc)) as [tp' [Htp' Hpc]].
    assert (tp' = tp) by congruence. subst tp'.
    destruct (string_dec c p) as [->|Hne].
    + apply Hnm. destruct (Hlisted _ _ Hc) as [I|I]; [now right | now left].
    + rewrite (preferred_swap _ _ _ Hne Hcp) in Hpc. discriminate.
Qed.

Lemma matched_proposers_do_not_block_witness :
  exists l,
    stable_matching insertion_order 2 displaced_participants = Ok l /\
    matched l "b" "x" /\
    ~ blocking_pair displaced_proposers displaced_receivers l "b" "y".
Proof.
  eexists. split; [vm_compute; reflexivity|].
  split; [right; now left|].
  apply (matched_proposers_do_not_block insertion_order 2
           "side_A" displaced_proposers "side_B" displaced_receivers
           _ "b" "y" "x");
    [reflexivity | reflexivity | reflexivity | right; now left].
Defined.
